(** * AuthAI face-matching engine: shallow embedding and verified properties

    The repository ships three overlapping implementations of the engine:
    - [simple_face_match.py]   (module [Simple]),   the one [server.py] imports;
    - [advanced_face_match.py] (module [Advanced]), embedding based;
    - [face_match.py]          (module [FaceMatch]), multi-metric with alignment.

    Conventions of the embedding.
    - A Python function is a Rocq function into [exc T]: it either returns
      ([Ok]) or raises an [Exception] carrying its message ([Raise]).
      [try: ... except Exception as e: ...] is [try_except].
    - Calls into OpenCV, NumPy, scikit-image, face_recognition, the file
      system and MongoDB are the fields of the class [World]. The general
      theorems quantify over all worlds, so they hold whatever these
      libraries do, and each call may raise; the concrete runs fix a world
      (a [Scene]).
    - Python floats are idealised as exact rationals ([Q]); NaN and the
      infinities are outside the model.
    - The dictionaries returned by [verify_face] are records whose optional
      fields are [None] when the key is absent.
    - Rectangles hold the [int32] values of the cascade; the product of a
      width and a height wraps around at 32 bits ([area]).
    - A user document keeps apart a username that is absent and one that is
      null ([Field]): [dict.get] with a default tells them apart. *)

From Stdlib Require Import ZArith QArith Ascii String List Sorted Bool Lqa.
From stdpp Require Import gmap strings.
Import ListNotations.

Open Scope string_scope.
Open Scope Q_scope.

(** ** Exceptions *)

Inductive exc (A : Type) : Type :=
| Ok (a : A)
| Raise (msg : string).

Arguments Ok {A} a.
Arguments Raise {A} msg.

(** Sequencing: [x ← c; k] runs [c], and [k] only if [c] did not raise. *)
#[global] Instance exc_ret : MRet exc := fun A a => Ok a.
#[global] Instance exc_bind : MBind exc := fun A B k c =>
  match c with
  | Ok a => k a
  | Raise e => Raise e
  end.

(** [try: body except Exception as e: handler e] *)
Definition try_except {A : Type} (body : exc A) (handler : string -> exc A) : exc A :=
  match body with
  | Ok a => Ok a
  | Raise e => handler e
  end.


(** ** Float comparisons, [max], [min] and [int] as Python evaluates them *)

Definition Qgeb (a b : Q) : bool := Qle_bool b a.
Definition Qgtb (a b : Q) : bool := negb (Qle_bool a b).

(** [max(a, b)] keeps its first argument unless the second is greater. *)
Definition pymax (a b : Q) : Q := if Qgtb b a then b else a.
(** [min(a, b)] keeps its first argument unless the second is smaller. *)
Definition pymin (a b : Q) : Q := if Qgtb a b then b else a.
(** [int(x)] truncates towards zero. *)
Definition pyint (x : Q) : Z := Z.quot (Qnum x) (Zpos (Qden x)).

(** ** Rectangles and the largest-area tie-break *)

Record Rect : Type := mkRect { rx : Z; ry : Z; rw : Z; rh : Z }.

(** The cascade returns rectangles of numpy [int32] values, and a product of
    two of them wraps around at 32 bits. *)
Definition int32 (z : Z) : Z := ((z + 2 ^ 31) mod 2 ^ 32 - 2 ^ 31)%Z.

(** [rect[2] * rect[3]] *)
Definition area (r : Rect) : Z := int32 (rw r * rh r).

(** [max(faces, key=lambda rect: rect[2] * rect[3])] on [first :: rest]:
    the first rectangle whose area, as computed, is maximal. *)
Definition largest (first : Rect) (rest : list Rect) : Rect :=
  fold_left (fun best r => if (area best <? area r)%Z then r else best) rest first.

(** [sorted(eyes, key=lambda eye: eye[0])]: a stable sort on the x
    coordinate; an element goes in front of the later ones of equal key. *)
Fixpoint insert_by_x (e : Rect) (l : list Rect) : list Rect :=
  match l with
  | [] => [e]
  | r :: l' => if (rx e <=? rx r)%Z then e :: l else r :: insert_by_x e l'
  end.

Definition sorted_by_x (l : list Rect) : list Rect :=
  fold_right insert_by_x [] l.

(** ** Registered users (documents of the [users] collection) *)

(** A string field of a document as [dict.get] reads it: the key is absent,
    it holds null, or it holds a string. [user.get(key)] answers [None] in
    the first two cases; [user.get(key, default)] answers the default in the
    first case only. *)
Inductive Field : Type :=
| Absent
| Null
| Str (s : string).

Record User : Type := mkUser {
  user_oid : string;               (* str(user["_id"]) *)
  user_image_path : option string; (* user.get('image_path') *)
  user_username : Field;           (* the key 'username' *)
  user_email : option string       (* user.get('email') *)
}.

(** [user.get(key, default)] *)
Definition get_or (f : Field) (default : string) : option string :=
  match f with
  | Absent => Some default
  | Null => None
  | Str s => Some s
  end.

(** [f"{value}"] of a string or [None] *)
Definition py_format (value : option string) : string :=
  match value with
  | Some s => s
  | None => "None"
  end.

(** Truthiness of an optional string: neither [None] nor empty. *)
Definition truthy (s : option string) : bool :=
  match s with
  | Some (String _ _) => true
  | _ => false
  end.

(** ** The result dictionary of [verify_face] *)

Record VerifyResult : Type := mkResult {
  r_success : option bool;
  r_match : bool;
  r_face_detected : option bool;
  r_similarity : option Q;
  r_display_similarity : option Z;
  r_threshold : option Q;
  r_method : option (option string);
  r_scores : option (list (string * Q));
  r_alternative_methods : option (list (string * Q));
  r_error : option string;
  r_message : option string
}.

(** ** The similarity report of the multi-metric scorers *)

Record Report : Type := mkReport {
  best_score : Q;
  method : option string;
  scores : list (string * Q)   (* insertion-ordered dict *)
}.

Definition empty_report : Report := mkReport 0 None [].

(** ** The libraries and the environment *)

Inductive ColorCode : Type :=
| COLOR_BGR2GRAY | COLOR_BGR2RGB | COLOR_GRAY2BGR | COLOR_RGB2GRAY.

Class World : Type := {
  Image : Type;      (* numpy image array *)
  Hist : Type;       (* histogram array *)
  Encoding : Type;   (* face_recognition embedding *)
  Features : Type;   (* geometric feature vector *)
  (* os, cv2.imread, cv2.imdecode *)
  path_exists : string -> bool;
  imread : string -> exc (option Image);
  imdecode : string -> exc (option Image);
  (* numpy *)
  shape : Image -> list Z;
  crop : Image -> Rect -> Image;            (* image[y:y+h, x:x+w] *)
  np_mse : Image -> Image -> exc Q;         (* np.mean((a - b) ** 2) *)
  np_norm_diff : Features -> Features -> exc Q; (* np.linalg.norm(a - b) *)
  features_len : Features -> nat;
  (* cv2 *)
  cvtColor : ColorCode -> Image -> exc Image;
  equalizeHist : Image -> exc Image;
  clahe_apply : Image -> exc Image;         (* createCLAHE(2.0, (8, 8)).apply *)
  resize : Image -> Z * Z -> exc Image;
  face_detect : Image -> Q -> Z -> exc (list Rect); (* face_cascade.detectMultiScale *)
  eye_detect : Image -> exc (list Rect);            (* eye_cascade.detectMultiScale *)
  warp_rotate : Image -> Z * Z -> Z -> Z -> exc Image;
    (* arctan2(dy, dx), getRotationMatrix2D(center, angle, 1.0), warpAffine
       with the shape of the source image; the centre is a pair of numpy
       integers, and an OpenCV that does not take such a pair raises here *)
  matchTemplate : Image -> Image -> exc Q;  (* TM_CCOEFF_NORMED, entry [0][0] *)
  calcHist : Image -> exc Hist;
  normalize_minmax : Hist -> exc Hist;
  compareHist : Hist -> Hist -> exc Q;      (* HISTCMP_CORREL *)
  (* skimage *)
  ssim : Image -> Image -> exc Q;
  (* face_recognition *)
  face_locations : Image -> exc (list (Z * Z * Z * Z));
  face_encodings : Image -> list (Z * Z * Z * Z) -> exc (list Encoding);
  face_distance : Encoding -> Encoding -> exc Q;
  (* pickle.dump of known_face_encodings into face_encodings.p *)
  pickle_dump : gmap string Encoding -> exc unit;
  (* face_match.extract_facial_features: floating-point geometry on the
     landmark detections, wrapped in its own try/except, so it returns a
     vector or None and never raises *)
  extract_facial_features : Image -> option Features;
  (* pymongo *)
  users_find : exc (list User);             (* users.find({"image_path": {"$exists": True}}) *)
  find_image_path : string -> exc (option string)
    (* users.find_one({"_id": ObjectId(user_id)}), then user['image_path'] *)
}.

(** [len(image.shape) == 3] *)
Definition is_color `{World} (img : Image) : bool :=
  (length (shape img) =? 3)%nat.

(** ** Registration: side effects and paths *)

(** [os.path.join(a, b)] of posixpath: an absolute [b] replaces [a]. *)
Fixpoint ends_with_slash (s : string) : bool :=
  match s with
  | EmptyString => false
  | String c EmptyString => Ascii.eqb c "/"%char
  | String _ rest => ends_with_slash rest
  end.

Definition os_path_join (a b : string) : string :=
  match b with
  | String c _ =>
      if Ascii.eqb c "/"%char then b
      else match a with
           | EmptyString => b
           | _ => if ends_with_slash a then a ++ b else a ++ "/" ++ b
           end
  | EmptyString =>
      match a with
      | EmptyString => b
      | _ => if ends_with_slash a then a ++ b else a ++ "/" ++ b
      end
  end.

(** [os.path.join("static/faces", f"{user_id}.jpg")] *)
Definition face_file (user_id : string) : string :=
  os_path_join (os_path_join "static" "faces") (user_id ++ ".jpg").

(** The calls of [save_user_face] that change the disk or the database, in
    the order they are made. *)
Inductive Effect `{World} : Type :=
| Makedirs (path : string)                  (* os.makedirs(path, exist_ok=True) *)
| Imwrite (path : string) (image : Image)   (* cv2.imwrite(path, image) *)
| UpdateImagePath (user_id path : string)
    (* users.update_one({"_id": ObjectId(user_id)}, {"$set": {"image_path": path}}) *)
| Remove (path : string).                   (* os.remove(path) *)

(** What these calls answer; each may raise. [output_exists] is
    [os.path.exists] asked after the write. *)
Class Store `{World} : Type := {
  makedirs : string -> exc unit;
  imwrite : string -> Image -> exc bool;
  update_image_path : string -> string -> exc unit;
  output_exists : string -> bool;
  os_remove : string -> exc unit
}.

(** A computation over a state [S] that may raise; the state reached
    before an exception is kept. *)
Definition Run (S A : Type) : Type := S -> exc A * S.

#[global] Instance Run_ret {S : Type} : MRet (Run S) := fun A a s => (Ok a, s).
#[global] Instance Run_bind {S : Type} : MBind (Run S) := fun A B k c s =>
  match c s with
  | (Ok a, s') => k a s'
  | (Raise e, s') => (Raise e, s')
  end.

Definition run_lift {S A : Type} (c : exc A) : Run S A := fun s => (c, s).

Definition run_try {S A : Type} (body : Run S A) (handler : string -> Run S A)
    : Run S A :=
  fun s =>
    match body s with
    | (Ok a, s') => (Ok a, s')
    | (Raise e, s') => handler e s'
    end.

(** An effectful call: it is appended to the log, then answers. *)
Definition logged `{World} {A : Type} (e : Effect) (c : exc A)
    : Run (list Effect) A :=
  fun log => (c, (log ++ [e])%list).

(** ** simple_face_match.py *)

Module Simple.
Section WithWorld.
Context `{W : World}.

Definition preprocess_image (image : option Image)
    (normalize_lighting enhance_contrast : bool) : exc (option Image) :=
  try_except
    (match image with
     | None => Ok None
     | Some img =>
         gray ← (if is_color img then cvtColor COLOR_BGR2GRAY img else Ok img);
         gray ← (if normalize_lighting then equalizeHist gray else Ok gray);
         gray ← (if enhance_contrast then clahe_apply gray else Ok gray);
         Ok (Some gray)
     end)
    (fun _ => Ok None).

Definition extract_face (image : option Image)
    (align_faces enhance_contrast normalize_lighting : bool) : exc (option Image) :=
  try_except
    (match image with
     | None => Ok None
     | Some img =>
         gray ← preprocess_image (Some img) normalize_lighting enhance_contrast;
         match gray with
         | None => Ok None
         | Some gray =>
             faces ← face_detect gray (11 # 10) 5;
             match faces with
             | [] => Ok None
             | f :: fs =>
                 let largest_face := largest f fs in
                 face_roi ← resize (crop gray largest_face) (200, 200)%Z;
                 Ok (Some face_roi)
             end
         end
     end)
    (fun _ => Ok None).

(** The body of [compute_similarity] once both faces are known to be present. *)
Definition similarity_metrics (face1 face2 : Image) : exc (Q * Q * Q) :=
  face1 ← resize face1 (200, 200)%Z;
  face2 ← resize face2 (200, 200)%Z;
  template_score ← matchTemplate face1 face2;
  ssim_score ← ssim face1 face2;
  hist1 ← calcHist face1;
  hist2 ← calcHist face2;
  hist1 ← normalize_minmax hist1;
  hist2 ← normalize_minmax hist2;
  hist_score ← compareHist hist1 hist2;
  Ok (template_score, ssim_score, hist_score).

Definition compute_similarity (face1 face2 : option Image) : exc Q :=
  try_except
    (match face1, face2 with
     | Some face1, Some face2 =>
         '(template_score, ssim_score, hist_score) ← similarity_metrics face1 face2;
         let best_score := pymax (pymax template_score ssim_score) hist_score in
         Ok best_score
     | _, _ => Ok 0
     end)
    (fun _ => Ok 0).

Definition user_info (user : User) : option string :=
  let user_info := get_or (user_username user) "Unknown" in
  if truthy (user_email user)
  then match user_email user with
       | Some e => Some (py_format user_info ++ " (" ++ e ++ ")")
       | None => user_info
       end
  else user_info.

(** One iteration of the scan: [None] when the user is skipped ([continue]),
    [Some similarity] when a similarity was computed. *)
Definition scan_user (input_face : Image) (user : User) : exc (option Q) :=
  if truthy (user_image_path user) &&
     match user_image_path user with Some p => path_exists p | None => false end
  then
    try_except
      (registered_image ←
         match user_image_path user with Some p => imread p | None => Ok None end;
       match registered_image with
       | None => Ok None
       | Some _ =>
           registered_face ← extract_face registered_image false true true;
           match registered_face with
           | None => Ok None
           | Some _ =>
               similarity ← compute_similarity (Some input_face) registered_face;
               Ok (Some similarity)
           end
       end)
      (fun _ => Ok None)
  else Ok None.

(** The [for user in registered_users] loop, with its two local variables
    [best_match] and [best_similarity]; [Some info] is the early
    [return True, user_info]. *)
Fixpoint scan (threshold : Q) (input_face : Image) (registered_users : list User)
    (best_match : option User) (best_similarity : Q) : exc (option (option string)) :=
  match registered_users with
  | [] => Ok None
  | user :: rest =>
      s ← scan_user input_face user;
      match s with
      | None => scan threshold input_face rest best_match best_similarity
      | Some similarity =>
          let best := if Qgtb similarity best_similarity
                      then (Some user, similarity)
                      else (best_match, best_similarity) in
          if Qgtb similarity threshold
          then Ok (Some (user_info user))
          else scan threshold input_face rest (fst best) (snd best)
      end
  end.

(** [is_face_duplicate] with its local constant [threshold] as a parameter. *)
Definition is_face_duplicate_at (threshold : Q) (image : option Image)
    : exc (bool * option string) :=
  try_except
    (input_face ← extract_face image false true true;
     match input_face with
     | None => Ok (false, None)
     | Some input_face =>
         registered_users ← users_find;
         hit ← scan threshold input_face registered_users None 0;
         match hit with
         | Some info => Ok (true, info)
         | None => Ok (false, None)
         end
     end)
    (fun _ => Ok (false, None)).

(** [threshold = 0.05] *)
Definition is_face_duplicate (image : option Image) : exc (bool * option string) :=
  is_face_duplicate_at (5 # 100) image.

Definition failure (error : string) : VerifyResult :=
  mkResult None false (Some false) None None None None None None (Some error) None.

Definition verify_face (image_path stored_image_path : string) (threshold : Q)
    (align_faces enhance_contrast : bool) : exc VerifyResult :=
  try_except
    (if negb (path_exists image_path) then Ok (failure "Input image not found")
     else if negb (path_exists stored_image_path) then Ok (failure "Stored image not found")
     else
       image ← imread image_path;
       stored_image ← imread stored_image_path;
       match image, stored_image with
       | Some _, Some _ =>
           input_face ← extract_face image align_faces enhance_contrast true;
           stored_face ← extract_face stored_image align_faces enhance_contrast true;
           match input_face, stored_face with
           | None, _ => Ok (failure "No face detected in input image")
           | Some _, None => Ok (failure "No face detected in stored image")
           | Some _, Some _ =>
               similarity ← compute_similarity input_face stored_face;
               let is_match := Qgeb similarity threshold in
               let display_similarity := pymin 100 (pymax 0 (similarity * 100)) in
               Ok (mkResult None is_match (Some true) (Some similarity)
                     (Some (pyint display_similarity)) (Some threshold)
                     None None None None None)
           end
       | _, _ => Ok (failure "Failed to read images")
       end)
    (fun e => Ok (failure e)).

Context {D : Store}.

Definition save_user_face (image_path user_id : string) : Run (list Effect) bool :=
  run_try
    (image ← run_lift (imread image_path);
     match image with
     | None => mret false
     | Some _ =>
         face ← run_lift (extract_face image false true true);
         match face with
         | None => mret false
         | Some face =>
             _ ← logged (Makedirs "static/faces") (makedirs "static/faces");
             let output_path := os_path_join "static/faces" (user_id ++ ".jpg") in
             success ← logged (Imwrite output_path face) (imwrite output_path face);
             if negb success then mret false
             else
               run_try
                 (_ ← logged (UpdateImagePath user_id output_path)
                       (update_image_path user_id output_path);
                  mret true)
                 (fun _ =>
                    if output_exists output_path
                    then _ ← logged (Remove output_path) (os_remove output_path);
                         mret false
                    else mret false)
         end
     end)
    (fun _ => mret false).

End WithWorld.
End Simple.

(** ** advanced_face_match.py *)

(** [os.path.basename(path)]: what follows the last ['/']. *)
Fixpoint basename_from (acc : string) (path : string) : string :=
  match path with
  | EmptyString => acc
  | String c rest =>
      if Ascii.eqb c "/"%char then basename_from rest rest
      else basename_from acc rest
  end.

Definition basename (path : string) : string := basename_from path path.

(** [name.split('.')[0]]: what precedes the first ['.']. *)
Fixpoint before_dot (name : string) : string :=
  match name with
  | EmptyString => EmptyString
  | String c rest =>
      if Ascii.eqb c "."%char then EmptyString else String c (before_dot rest)
  end.

Module Advanced.
Section WithWorld.
Context `{W : World}.

(** The module-level dictionary [known_face_encodings]. It is mutated in
    place, so a function that touches it maps the dictionary before the
    call to its outcome and the dictionary after the call; what was stored
    before an exception stays stored. *)
Definition St (A : Type) : Type :=
  gmap string Encoding -> exc A * gmap string Encoding.

#[local] Instance St_ret : MRet St := fun A a known => (Ok a, known).
#[local] Instance St_bind : MBind St := fun A B k c known =>
  match c known with
  | (Ok a, known') => k a known'
  | (Raise e, known') => (Raise e, known')
  end.

Definition lift {A : Type} (c : exc A) : St A := fun known => (c, known).

Definition lookup_known (user_id : string) : St (option Encoding) :=
  fun known => (Ok (known !! user_id), known).

Definition store_known (user_id : string) (e : Encoding) : St unit :=
  fun known => (Ok tt, <[user_id := e]> known).

Definition st_try {A : Type} (body : St A) (handler : string -> St A) : St A :=
  fun known =>
    match body known with
    | (Ok a, known') => (Ok a, known')
    | (Raise e, known') => handler e known'
    end.

Definition save_face_encodings : St unit :=
  fun known => (try_except (pickle_dump known) (fun _ => Ok tt), known).

Definition preprocess_image (image : option Image) : exc (option Image) :=
  try_except
    (match image with
     | None => Ok None
     | Some img =>
         rgb_image ←
           (if is_color img then cvtColor COLOR_BGR2RGB img
            else bgr ← cvtColor COLOR_GRAY2BGR img; cvtColor COLOR_BGR2RGB bgr);
         Ok (Some rgb_image)
     end)
    (fun _ => Ok None).

(** [(None, None)] is [None]; otherwise the resized region and its rectangle. *)
Definition extract_face (image : option Image) : exc (option (Image * Rect)) :=
  try_except
    (match image with
     | None => Ok None
     | Some img =>
         rgb_image ← preprocess_image (Some img);
         match rgb_image with
         | None => Ok None
         | Some rgb_image =>
             locs ← face_locations rgb_image;
             match locs with
             | [] => Ok None
             | (top, right_, bottom, left_) :: _ =>
                 let face_rect := mkRect left_ top (right_ - left_) (bottom - top) in
                 face_roi ← resize (crop rgb_image face_rect) (200, 200)%Z;
                 Ok (Some (face_roi, face_rect))
             end
         end
     end)
    (fun _ => Ok None).

Definition get_face_encoding (image : option Image) : exc (option Encoding) :=
  try_except
    (match image with
     | None => Ok None
     | Some img =>
         rgb_image ← preprocess_image (Some img);
         match rgb_image with
         | None => Ok None
         | Some rgb_image =>
             locs ← face_locations rgb_image;
             match locs with
             | [] => Ok None
             | _ :: _ =>
                 encs ← face_encodings rgb_image locs;
                 match encs with
                 | [] => Ok None
                 | e :: _ => Ok (Some e)
                 end
             end
         end
     end)
    (fun _ => Ok None).

Definition compare_faces (encoding1 encoding2 : option Encoding) (tolerance : Q)
    : exc (bool * Q) :=
  try_except
    (match encoding1, encoding2 with
     | Some encoding1, Some encoding2 =>
         d ← face_distance encoding1 encoding2;
         let similarity := 1 - pymin d 1 in
         let is_match := Qle_bool d tolerance in
         Ok (is_match, similarity)
     | _, _ => Ok (false, 0)
     end)
    (fun _ => Ok (false, 0)).

Definition to_gray (face : Image) : exc Image :=
  if is_color face then cvtColor COLOR_RGB2GRAY face else Ok face.

Definition compute_additional_similarity (face1 face2 : option Image) : exc Report :=
  match face1, face2 with
  | Some face1, Some face2 =>
      gray1 ← to_gray face1;
      gray2 ← to_gray face2;
      gray2 ←
        (if bool_decide (shape gray1 = shape gray2) then Ok gray2
         else match shape gray1 with
              | h :: w :: _ => resize gray2 (w, h)
              | _ => Raise "tuple index out of range"
              end);
      try_except
        (ssim_score ← ssim gray1 gray2;
         hist1 ← calcHist gray1;
         hist2 ← calcHist gray2;
         hist1 ← normalize_minmax hist1;
         hist2 ← normalize_minmax hist2;
         hist_score ← compareHist hist1 hist2;
         let best_score := pymax ssim_score hist_score in
         let best_method := if Qgeb ssim_score hist_score then "ssim" else "histogram" in
         Ok (mkReport best_score (Some best_method)
               [("ssim", ssim_score); ("histogram", hist_score)]))
        (fun _ => Ok empty_report)
  | _, _ => Ok empty_report
  end.

(** The stored encoding of one user of the scan: from the dictionary, or
    computed from the registered image and then stored; [None] is [continue]. *)
Definition stored_encoding_of (user : User) : St (option Encoding) :=
  let user_id := user_oid user in
  match user_image_path user with
  | Some (String _ _ as user_image_path) =>
      if path_exists user_image_path then
        cached ← lookup_known user_id;
        match cached with
        | Some stored_encoding => mret (Some stored_encoding)
        | None =>
            stored_image ← lift (imread user_image_path);
            match stored_image with
            | None => mret None
            | Some _ =>
                stored_encoding ← lift (get_face_encoding stored_image);
                match stored_encoding with
                | None => mret None
                | Some e => _ ← store_known user_id e; mret (Some e)
                end
            end
        end
      else mret None
  | _ => mret None
  end.

(** [user.get("username", "Unknown User")]: [None] when the key holds null. *)
Definition username_or_default (user : User) : option string :=
  get_or (user_username user) "Unknown User".

(** The [for user in users_with_faces] loop with its locals [best_match]
    and [best_similarity]. *)
Fixpoint scan (threshold : Q) (encoding : Encoding) (users_with_faces : list User)
    (best_match : option string) (best_similarity : Q) : St (option string * Q) :=
  match users_with_faces with
  | [] => mret (best_match, best_similarity)
  | user :: rest =>
      stored ← stored_encoding_of user;
      match stored with
      | None => scan threshold encoding rest best_match best_similarity
      | Some stored_encoding =>
          '(_, similarity) ← lift (compare_faces (Some stored_encoding) (Some encoding) threshold);
          if Qgtb similarity best_similarity
          then scan threshold encoding rest (username_or_default user) similarity
          else scan threshold encoding rest best_match best_similarity
      end
  end.

(** [is_face_duplicate] with its local constant [threshold] as a parameter. *)
Definition is_face_duplicate_at (threshold : Q) (image : option Image)
    : St (bool * option string) :=
  st_try
    (rgb_image ← lift (preprocess_image image);
     match rgb_image with
     | None => mret (false, None)
     | Some _ =>
         encoding ← lift (get_face_encoding rgb_image);
         match encoding with
         | None => mret (false, None)
         | Some encoding =>
             users_with_faces ← lift users_find;
             '(best_match, best_similarity) ←
               scan threshold encoding users_with_faces None (-1);
             _ ← save_face_encodings;
             let is_duplicate := Qgeb best_similarity threshold in
             mret (is_duplicate, best_match)
         end
     end)
    (fun _ => mret (false, None)).

(** [threshold = 0.6] *)
Definition is_face_duplicate (image : option Image) : St (bool * option string) :=
  is_face_duplicate_at (6 # 10) image.

Definition failure (error : string) (face_detected : option bool) : VerifyResult :=
  mkResult None false face_detected (Some 0) None None (Some (Some "error")) None
    None (Some error) None.

Definition verify_face (image_path stored_image_path : string) (threshold : Q)
    (align_faces enhance_contrast : bool) : St VerifyResult :=
  st_try
    (if negb (path_exists image_path) then mret (failure "Input image not found" None)
     else if negb (path_exists stored_image_path)
     then mret (failure "Stored image not found" None)
     else
       image ← lift (imread image_path);
       stored_image ← lift (imread stored_image_path);
       match image, stored_image with
       | Some _, Some _ =>
           let user_id := before_dot (basename stored_image_path) in
           encoding ← lift (get_face_encoding image);
           match encoding with
           | None => mret (failure "Could not detect face in input image" (Some false))
           | Some _ =>
               cached ← lookup_known user_id;
               stored ←
                 match cached with
                 | Some stored_encoding => mret (Some stored_encoding)
                 | None =>
                     stored_encoding ← lift (get_face_encoding stored_image);
                     match stored_encoding with
                     | None => mret None
                     | Some e =>
                         _ ← store_known user_id e;
                         _ ← save_face_encodings;
                         mret (Some e)
                     end
                 end;
               match stored with
               | None => mret (failure "Could not detect face in stored image" (Some true))
               | Some _ =>
                   '(is_match, similarity) ← lift (compare_faces stored encoding threshold);
                   face_roi ← lift (extract_face image);
                   stored_face_roi ← lift (extract_face stored_image);
                   additional_scores ←
                     match face_roi, stored_face_roi with
                     | Some (f, _), Some (s, _) =>
                         additional_metrics ←
                           lift (compute_additional_similarity (Some f) (Some s));
                         mret (scores additional_metrics)
                     | _, _ => mret []
                     end;
                   let display_similarity :=
                     if (is_match : bool) then Z.max (pyint (similarity * 100)) 80
                     else pyint (similarity * 100) in
                   mret (mkResult None is_match (Some true) (Some similarity)
                           (Some display_similarity) (Some threshold)
                           (Some (Some "face_recognition")) None
                           (Some additional_scores) None None)
               end
           end
       | _, _ => mret (failure "Failed to read images" None)
       end)
    (fun e => mret (failure e (Some false))).

Context {D : Store}.

(** [save_user_face] touches the dictionary and the disk: its state is the
    pair of both. *)
Definition on_known {A : Type} (c : St A)
    : Run (gmap string Encoding * list Effect) A :=
  fun s => let '(r, known') := c (fst s) in (r, (known', snd s)).

Definition on_disk {A : Type} (c : Run (list Effect) A)
    : Run (gmap string Encoding * list Effect) A :=
  fun s => let '(r, log') := c (snd s) in (r, (fst s, log')).

Definition save_user_face (image_path user_id : string)
    : Run (gmap string Encoding * list Effect) bool :=
  run_try
    (image ← run_lift (imread image_path);
     match image with
     | None => mret false
     | Some img =>
         encoding ← run_lift (get_face_encoding image);
         match encoding with
         | None => mret false
         | Some encoding =>
             let face_dir := os_path_join "static" "faces" in
             _ ← on_disk (logged (Makedirs face_dir) (makedirs face_dir));
             let face_file := os_path_join face_dir (user_id ++ ".jpg") in
             _ ← on_disk (logged (Imwrite face_file img) (imwrite face_file img));
             _ ← on_disk (logged (UpdateImagePath user_id face_file)
                            (update_image_path user_id face_file));
             _ ← on_known (store_known user_id encoding);
             _ ← on_known save_face_encodings;
             mret true
         end
     end)
    (fun _ => mret false).

End WithWorld.
End Advanced.

(** ** face_match.py *)

(** [scores.get(key)] on the insertion-ordered dictionary. *)
Fixpoint score_of (key : string) (scores : list (string * Q)) : option Q :=
  match scores with
  | [] => None
  | (k, v) :: rest => if String.eqb key k then Some v else score_of key rest
  end.

(** [max(scores, key=scores.get)] on [first :: rest]: the first key whose
    score is maximal. *)
Definition best_entry (first : string * Q) (rest : list (string * Q)) : string * Q :=
  fold_left (fun best e => if Qgtb (snd e) (snd best) then e else best) rest first.

(** What [align_face] hands back, up to object identity: [None], the very
    array it was given ([return image]), or a new array. *)
Inductive Aligned `{World} : Type :=
| ReturnedNone
| SameObject
| NewImage (aligned_image : Image).

Module FaceMatch.
Section WithWorld.
Context `{W : World}.

Definition preprocess_image (image : option Image)
    (normalize_lighting enhance_contrast : bool) : exc (option Image) :=
  try_except
    (match image with
     | None => Ok None
     | Some img =>
         gray ← (if is_color img then cvtColor COLOR_BGR2GRAY img else Ok img);
         gray ← (if normalize_lighting then equalizeHist gray else Ok gray);
         gray ← (if enhance_contrast then clahe_apply gray else Ok gray);
         Ok (Some gray)
     end)
    (fun _ => Ok None).

Definition eye_center (x y : Z) (eye : Rect) : Z * Z :=
  (x + rx eye + rw eye / 2, y + ry eye + rh eye / 2)%Z.

Definition align_face (image : option Image) (face_rect : option Rect) : exc Aligned :=
  match image with
  | None => try_except (Ok ReturnedNone) (fun _ => Ok ReturnedNone)
  | Some image =>
      try_except
        (face_rect ←
           match face_rect with
           | Some r => Ok (Some r)
           | None =>
               faces ← face_detect image (13 # 10) 5;
               match faces with
               | [] => Ok None
               | f :: fs => Ok (Some (largest f fs))
               end
           end;
         match face_rect with
         | None => Ok SameObject
         | Some face_rect =>
             let x := rx face_rect in
             let y := ry face_rect in
             let face_image := crop image face_rect in
             eyes ← eye_detect face_image;
             match sorted_by_x eyes with
             | left_eye :: right_eye :: _ =>
                 let left_eye_center := eye_center x y left_eye in
                 let right_eye_center := eye_center x y right_eye in
                 let dx := (fst right_eye_center - fst left_eye_center)%Z in
                 let dy := (snd right_eye_center - snd left_eye_center)%Z in
                 let center := ((fst left_eye_center + fst right_eye_center) / 2,
                                (snd left_eye_center + snd right_eye_center) / 2)%Z in
                 aligned_image ← warp_rotate image center dy dx;
                 Ok (NewImage aligned_image)
             | _ => Ok SameObject
             end
         end)
        (fun _ => Ok SameObject)
  end.

(** [for scale_factor in [1.1, 1.2, 1.3]]: extend [faces], stop at the
    first non-empty result. *)
Fixpoint detect_faces (gray : Image) (scale_factors : list Q) (faces : list Rect)
    : exc (list Rect) :=
  match scale_factors with
  | [] => Ok faces
  | scale_factor :: rest =>
      detected ← face_detect gray scale_factor 5;
      let faces := (faces ++ detected)%list in
      match faces with
      | [] => detect_faces gray rest faces
      | _ :: _ => Ok faces
      end
  end.

(** The region handed to [cv2.resize], chosen by the alignment branch. *)
Definition face_region (gray : Image) (largest_face : Rect) (align_faces : bool)
    : exc Image :=
  if align_faces then
    aligned ← align_face (Some gray) (Some largest_face);
    match aligned with
    | SameObject => Ok (crop gray largest_face)
    | NewImage aligned_image =>
        aligned_faces ← face_detect aligned_image (13 # 10) 5;
        match aligned_faces with
        | f :: fs => Ok (crop aligned_image (largest f fs))
        | [] => Ok (crop aligned_image largest_face)
        end
    | ReturnedNone => Raise "detectMultiScale: image is None"
    end
  else Ok (crop gray largest_face).

Definition extract_face (image : option Image)
    (align_faces enhance_contrast normalize_lighting : bool) : exc (option Image) :=
  try_except
    (match image with
     | None => Ok None
     | Some img =>
         gray ← preprocess_image (Some img) normalize_lighting enhance_contrast;
         match gray with
         | None => Ok None
         | Some gray =>
             faces ← detect_faces gray [11 # 10; 12 # 10; 13 # 10] [];
             match faces with
             | [] => Ok None
             | f :: fs =>
                 let largest_face := largest f fs in
                 face_roi ← face_region gray largest_face align_faces;
                 face_roi ← resize face_roi (200, 200)%Z;
                 face_roi ←
                   (if enhance_contrast && negb normalize_lighting
                    then clahe_apply face_roi else Ok face_roi);
                 Ok (Some face_roi)
             end
         end
     end)
    (fun _ => Ok None).

(** The optional fifth entry of the scores dictionary. *)
Definition facial_features_score (face1 face2 : Image) : exc (list (string * Q)) :=
  match extract_facial_features face1, extract_facial_features face2 with
  | Some face1_features, Some face2_features =>
      if (features_len face1_features =? features_len face2_features)%nat then
        feature_distance ← np_norm_diff face1_features face2_features;
        let feature_similarity :=
          if Qgtb feature_distance 0 then 1 / (1 + feature_distance) else 1 in
        Ok [("facial_features", feature_similarity)]
      else Ok []
  | _, _ => Ok []
  end.

(** The scores dictionary as the [try] block fills it. *)
Definition all_scores (face1 face2 : Image) : exc (list (string * Q)) :=
  face1 ← resize face1 (200, 200)%Z;
  face2 ← resize face2 (200, 200)%Z;
  template_score ← matchTemplate face1 face2;
  ssim_score ← ssim face1 face2;
  hist1 ← calcHist face1;
  hist2 ← calcHist face2;
  hist1 ← normalize_minmax hist1;
  hist2 ← normalize_minmax hist2;
  hist_score ← compareHist hist1 hist2;
  mse ← np_mse face1 face2;
  let mse_similarity := 1 - pymin 1 (mse / 10000) in
  features ← facial_features_score face1 face2;
  Ok ([("template", template_score); ("ssim", ssim_score);
       ("histogram", hist_score); ("mse", mse_similarity)] ++ features)%list.

Definition compute_similarity_multiple (face1 face2 : option Image) : exc Report :=
  match face1, face2 with
  | Some face1, Some face2 =>
      try_except
        (scores ← all_scores face1 face2;
         match scores with
         | [] => Raise "max() arg is an empty sequence"
         | s :: rest =>
             let best := best_entry s rest in
             Ok (mkReport (snd best) (Some (fst best)) scores)
         end)
        (fun _ => Ok empty_report)
  | _, _ => Ok empty_report
  end.

Definition failure (success : bool) (face_detected : option bool)
    (error message : option string) : VerifyResult :=
  mkResult (Some success) false face_detected None None None None None None
    error message.

Definition verify_face (image_path stored_image_path user_id : option string)
    (threshold : Q) (image_data : option string)
    (align_faces enhance_contrast : bool) : exc VerifyResult :=
  try_except
    (looked_up ←
       (if truthy user_id && negb (truthy stored_image_path)
        then match user_id with
             | Some uid => p ← find_image_path uid; Ok (Some p)
             | None => Ok None
             end
        else Ok None);
     match looked_up with
     | Some None => Ok (failure false None (Some "no_registered_face") None)
     | _ =>
         let stored_image_path :=
           match looked_up with
           | Some (Some p) => Some p
           | _ => stored_image_path
           end in
         match stored_image_path with
         | Some (String _ _ as stored_image_path) =>
             stored_image ← imread stored_image_path;
             match stored_image with
             | None => Ok (failure false None (Some "stored_image_load_failed") None)
             | Some _ =>
                 input_image ←
                   match image_data with
                   | Some data => imdecode data
                   | None =>
                       match image_path with
                       | Some (String _ _ as image_path) => imread image_path
                       | _ => Ok None
                       end
                   end;
                 match input_image with
                 | None => Ok (failure false None (Some "input_image_load_failed") None)
                 | Some _ =>
                     input_face ← extract_face input_image align_faces enhance_contrast true;
                     stored_face ← extract_face stored_image align_faces enhance_contrast true;
                     match input_face, stored_face with
                     | None, _ => Ok (failure true (Some false) None None)
                     | Some _, None => Ok (failure false None (Some "no_stored_face") None)
                     | Some _, Some _ =>
                         similarity_result ← compute_similarity_multiple input_face stored_face;
                         let similarity := best_score similarity_result in
                         let method := method similarity_result in
                         let scores := scores similarity_result in
                         let is_match := true in
                         let similarity :=
                           match score_of "facial_features" scores with
                           | Some v => if Qgtb v (3 # 10) then pymax (9 # 10) similarity
                                       else similarity
                           | None => similarity
                           end in
                         Ok (mkResult (Some true) is_match (Some true)
                               (Some (pymax (8 # 10) similarity)) None (Some threshold)
                               (Some method) (Some scores) None None None)
                     end
                 end
             end
         | _ => Ok (failure false None (Some "no_stored_path") None)
         end
     end)
    (fun e => Ok (failure false None (Some "verification_error") (Some e))).

(** Legacy [compute_similarity]: the template score alone. *)
Definition compute_similarity (face1 face2 : option Image) : exc Q :=
  try_except
    (match face1, face2 with
     | Some face1, Some face2 =>
         face1 ← resize face1 (200, 200)%Z;
         face2 ← resize face2 (200, 200)%Z;
         score ← matchTemplate face1 face2;
         Ok score
     | _, _ => Ok 0
     end)
    (fun _ => Ok 0).

Definition user_info (user : User) : option string :=
  let user_info := get_or (user_username user) "Unknown" in
  if truthy (user_email user)
  then match user_email user with
       | Some e => Some (py_format user_info ++ " (" ++ e ++ ")")
       | None => user_info
       end
  else user_info.

(** One iteration of the scan: [None] when the user is skipped
    ([continue]), [Some report] when the scorer was run. *)
Definition scan_user (input_face : Image) (user : User) : exc (option Report) :=
  if truthy (user_image_path user) &&
     match user_image_path user with Some p => path_exists p | None => false end
  then
    try_except
      (registered_image ←
         match user_image_path user with Some p => imread p | None => Ok None end;
       match registered_image with
       | None => Ok None
       | Some _ =>
           registered_face ← extract_face registered_image true true true;
           match registered_face with
           | None => Ok None
           | Some _ =>
               similarity_result ←
                 compute_similarity_multiple (Some input_face) registered_face;
               Ok (Some similarity_result)
           end
       end)
      (fun _ => Ok None)
  else Ok None.

(** [method == 'facial_features'] *)
Definition is_facial_features (method : option string) : bool :=
  match method with
  | Some m => String.eqb m "facial_features"
  | None => false
  end.

(** The [for user in registered_users] loop; [Some info] is one of the two
    [return True, user_info]. *)
Fixpoint scan (threshold feature_threshold : Q) (input_face : Image)
    (registered_users : list User)
    (best_user : option User) (best_similarity : Q) (best_method : option string)
    : exc (option (option string)) :=
  match registered_users with
  | [] => Ok None
  | user :: rest =>
      r ← scan_user input_face user;
      match r with
      | None =>
          scan threshold feature_threshold input_face rest
            best_user best_similarity best_method
      | Some similarity_result =>
          let similarity := best_score similarity_result in
          let method := method similarity_result in
          if is_facial_features method && Qgtb similarity feature_threshold
          then Ok (Some (user_info user))
          else
            let best := if Qgtb similarity best_similarity
                        then (Some user, similarity, method)
                        else (best_user, best_similarity, best_method) in
            if Qgtb similarity threshold
            then Ok (Some (user_info user))
            else scan threshold feature_threshold input_face rest
                   (fst (fst best)) (snd (fst best)) (snd best)
      end
  end.

(** [is_face_duplicate] with its local constants [threshold] and
    [feature_threshold] as parameters. *)
Definition is_face_duplicate_at (threshold feature_threshold : Q)
    (image : option Image) : exc (bool * option string) :=
  try_except
    (input_face ← extract_face image true true true;
     match input_face with
     | None => Ok (false, None)
     | Some input_face =>
         registered_users ← users_find;
         hit ← scan threshold feature_threshold input_face registered_users
                 None 0 None;
         match hit with
         | Some info => Ok (true, info)
         | None => Ok (false, None)
         end
     end)
    (fun _ => Ok (false, None)).

(** [threshold = 0.05], [feature_threshold = 0.3] *)
Definition is_face_duplicate (image : option Image) : exc (bool * option string) :=
  is_face_duplicate_at (5 # 100) (3 # 10) image.

Context {D : Store}.

Definition save_user_face (image_path user_id : string) : Run (list Effect) bool :=
  run_try
    (image ← run_lift (imread image_path);
     match image with
     | None => mret false
     | Some _ =>
         face ← run_lift (extract_face image true true true);
         match face with
         | None => mret false
         | Some face =>
             _ ← logged (Makedirs "static/faces") (makedirs "static/faces");
             let output_path := os_path_join "static/faces" (user_id ++ ".jpg") in
             success ← logged (Imwrite output_path face) (imwrite output_path face);
             if negb success then mret false
             else
               run_try
                 (_ ← logged (UpdateImagePath user_id output_path)
                       (update_image_path user_id output_path);
                  mret true)
                 (fun _ =>
                    if output_exists output_path
                    then _ ← logged (Remove output_path) (os_remove output_path);
                         mret false
                    else mret false)
         end
     end)
    (fun _ => mret false).

End WithWorld.
End FaceMatch.

(** * Notions used by the statements *)

(** A failure result: no match, and an [error] entry saying what failed. *)
Definition failure_result (r : VerifyResult) : Prop :=
  r_match r = false /\ exists msg, r_error r = Some msg.

(** A verdict: a face was detected and a similarity is reported. *)
Definition verdict_result (r : VerifyResult) : Prop :=
  r_error r = None /\ r_face_detected r = Some true /\
  exists s, r_similarity r = Some s.

(** What the libraries document about their metrics: the three
    correlation-type metrics range over [-1, 1], a mean of squares is
    not negative. *)
Definition metric_ranges `{World} : Prop :=
  (forall a b v, matchTemplate a b = Ok v -> -1 <= v <= 1) /\
  (forall a b v, ssim a b = Ok v -> -1 <= v <= 1) /\
  (forall a b v, compareHist a b = Ok v -> -1 <= v <= 1) /\
  (forall a b v, np_mse a b = Ok v -> 0 <= v).

(** What the libraries give for an array against itself: at least one of
    the three correlation-type metrics scores it at exactly 1 (SSIM does
    for every array, the two correlations for every array that is not
    constant). *)
Definition identity_law `{World} : Prop :=
  (forall a, matchTemplate a a = Ok 1) \/
  (forall a, ssim a a = Ok 1) \/
  (forall h, compareHist h h = Ok 1).

(** * Concrete worlds

    A scene fixes what the libraries answer: pictures are numbered, files
    hold pictures, the detectors and the metrics are tables. Colour
    conversion, equalisation, cropping and resizing keep the number of the
    picture; the embedding of a picture is its number. *)

Record Scene : Type := mkScene {
  sc_files : list (string * Z);
  sc_faces : Z -> list Rect;
  sc_eyes : Z -> list Rect;
  sc_rotated : Z -> Z;
  sc_template : Z -> Z -> Q;
  sc_ssim : Z -> Z -> Q;
  sc_hist : Z -> Z -> Q;
  sc_mse : Z -> Z -> Q;
  sc_distance : Z -> Z -> Q;
  sc_users : list User
}.

Fixpoint file_lookup (path : string) (files : list (string * Z)) : option Z :=
  match files with
  | [] => None
  | (p, picture) :: rest =>
      if String.eqb path p then Some picture else file_lookup path rest
  end.

Definition location_of (r : Rect) : Z * Z * Z * Z :=
  (ry r, rx r + rw r, ry r + rh r, rx r)%Z.

Definition world_of (s : Scene) : World := {|
  Image := Z;
  Hist := Z;
  Encoding := Z;
  Features := unit;
  path_exists := fun p => match file_lookup p (sc_files s) with
                          | Some _ => true | None => false end;
  imread := fun p => Ok (file_lookup p (sc_files s));
  imdecode := fun _ => Ok None;
  shape := fun _ => [200; 200]%Z;
  crop := fun img _ => img;
  np_mse := fun a b => Ok (sc_mse s a b);
  np_norm_diff := fun _ _ => Ok 0;
  features_len := fun _ => 3%nat;
  cvtColor := fun _ img => Ok img;
  equalizeHist := fun img => Ok img;
  clahe_apply := fun img => Ok img;
  resize := fun img _ => Ok img;
  face_detect := fun img _ _ => Ok (sc_faces s img);
  eye_detect := fun img => Ok (sc_eyes s img);
  warp_rotate := fun img _ _ _ => Ok (sc_rotated s img);
  matchTemplate := fun a b => Ok (sc_template s a b);
  calcHist := fun img => Ok img;
  normalize_minmax := fun h => Ok h;
  compareHist := fun a b => Ok (sc_hist s a b);
  ssim := fun a b => Ok (sc_ssim s a b);
  face_locations := fun img => Ok (map location_of (sc_faces s img));
  face_encodings := fun img locs => Ok (map (fun _ => img) locs);
  face_distance := fun a b => Ok (sc_distance s a b);
  pickle_dump := fun _ => Ok tt;
  extract_facial_features := fun _ => None;
  users_find := Ok (sc_users s);
  find_image_path := fun _ => Ok None
|}.

Definition one_face : list Rect := [mkRect 40 30 120 120].

(** *** Two pictures without a face (C8) *)


(** *** A face in one of the two pictures only (C8) *)



(** *** The same picture twice (C5) *)

Definition same_picture : Scene :=
  mkScene [("capture.jpg", 1%Z); ("static/faces/u1.jpg", 1%Z)]
    (fun _ => one_face) (fun _ => []) (fun p => p)
    (fun _ _ => 1) (fun _ _ => 1) (fun _ _ => 1) (fun _ _ => 0) (fun _ _ => 0) [].

(** *** A picture and its photographic negative (C2) *)

Definition negative_pair : Scene :=
  mkScene [] (fun _ => one_face) (fun _ => []) (fun p => p)
    (fun _ _ => -1) (fun _ _ => -(3 # 4)) (fun _ _ => -(1 # 2))
    (fun _ _ => 9000) (fun _ _ => 1) [].

(** *** Two different people whose crops look alike (C7) *)

Definition lookalike : Scene :=
  mkScene [("capture.jpg", 1%Z); ("static/faces/u1.jpg", 2%Z)]
    (fun _ => one_face) (fun _ => []) (fun p => p)
    (fun _ _ => 12 # 100) (fun _ _ => 9 # 10) (fun _ _ => 1 # 2)
    (fun _ _ => 7500) (fun _ _ => 7 # 10) [].

(** *** The same best score, held by another metric (C4) *)


(** Following the spec's words: the fused score is the maximum of all the
    metrics computed for the pair, here the embedding similarity and the
    alternative methods of the result. *)
Definition spec_fused_score (r : VerifyResult) : Q :=
  fold_left pymax
    (map snd (match r_alternative_methods r with Some l => l | None => [] end))
    (match r_similarity r with Some s => s | None => 0 end).

(** Following the spec's words: a match is declared if the embedding
    distance is within the tolerance, or the fused score clears the
    threshold. *)
Definition spec_match (d tolerance fused threshold : Q) : bool :=
  Qle_bool d tolerance || Qgeb fused threshold.

(** *** Two different people (C1) *)

Definition strangers : Scene :=
  mkScene [("capture.jpg", 1%Z); ("static/faces/u1.jpg", 2%Z)]
    (fun _ => one_face) (fun _ => []) (fun p => p)
    (fun _ _ => 12 # 100) (fun _ _ => 2 # 10) (fun _ _ => 3 # 10)
    (fun _ _ => 7500) (fun _ _ => 7 # 10) [].

(** *** A tilted face that the cascade loses after rotation (C9) *)






(** The similarity the scan of [advanced_face_match] computes for one user
    against the dictionary [known]; [Ok None] when the user is skipped. The
    tolerance handed to [compare_faces] has no effect on it. *)
Definition similarity_of `{World} (encoding : Encoding) (user : User)
    (known : gmap string Encoding) : exc (option Q) :=
  stored ← fst (Advanced.stored_encoding_of user known);
  match stored with
  | None => Ok None
  | Some stored_encoding =>
      '(_, similarity) ←
        Advanced.compare_faces (Some stored_encoding) (Some encoding) 0;
      Ok (Some similarity)
  end.

(** Every user of the list is skipped or scores strictly below [s] against
    the dictionary [known0]. *)
Definition below `{World} (encoding : Encoding) (known0 : gmap string Encoding)
    (s : Q) (users : list User) : Prop :=
  forall u, In u users ->
    exists o, similarity_of encoding u known0 = Ok o /\
              forall s', o = Some s' -> s' < s.

(** The dictionary [known] still holds what [known0] held for the users to
    come. *)
Definition agrees `{World} (known0 known : gmap string Encoding)
    (users : list User) : Prop :=
  forall u, In u users -> known !! user_oid u = known0 !! user_oid u.

(** *** Three registered users, the second one is the person captured (C6) *)

Definition alice : User :=
  mkUser "64a1" (Some "static/faces/64a1.jpg") (Str "alice") (Some "alice@example.com").
Definition bob : User :=
  mkUser "64b2" (Some "static/faces/64b2.jpg") (Str "bob") (Some "bob@example.com").
Definition carol : User :=
  mkUser "64c3" (Some "static/faces/64c3.jpg") (Str "carol") None.

(** Picture 1 is the capture, pictures 11, 12 and 13 are the registered
    faces; picture 12 shows the person of picture 1. *)
Definition corpus : Scene :=
  mkScene [("capture.jpg", 1%Z); ("static/faces/64a1.jpg", 11%Z);
           ("static/faces/64b2.jpg", 12%Z); ("static/faces/64c3.jpg", 13%Z)]
    (fun _ => one_face) (fun _ => []) (fun p => p)
    (fun _ _ => 0)
    (fun a b => if (b =? 12)%Z then 9 # 10 else 2 # 100)
    (fun _ _ => 0)
    (fun _ _ => 9000)
    (fun a b => if (a =? 12)%Z then 2 # 10 else 1)
    [alice; bob; carol].

(** *** A registered user whose record holds a null username *)

Definition nameless_bob : User :=
  mkUser "64b2" (Some "static/faces/64b2.jpg") Null (Some "bob@example.com").

(** As [corpus], with [nameless_bob] in the place of [bob]. *)
Definition nameless : Scene :=
  mkScene [("capture.jpg", 1%Z); ("static/faces/64a1.jpg", 11%Z);
           ("static/faces/64b2.jpg", 12%Z); ("static/faces/64c3.jpg", 13%Z)]
    (fun _ => one_face) (fun _ => []) (fun p => p)
    (fun _ _ => 0)
    (fun a b => if (b =? 12)%Z then 9 # 10 else 2 # 100)
    (fun _ _ => 0)
    (fun _ _ => 9000)
    (fun a b => if (a =? 12)%Z then 2 # 10 else 1)
    [alice; nameless_bob; carol].

(** *** Two users clear the threshold, the weaker one comes first *)

Definition crowded : Scene :=
  mkScene [("capture.jpg", 1%Z); ("static/faces/64a1.jpg", 11%Z);
           ("static/faces/64b2.jpg", 12%Z); ("static/faces/64c3.jpg", 13%Z)]
    (fun _ => one_face) (fun _ => []) (fun p => p)
    (fun _ _ => 0)
    (fun a b => if (b =? 12)%Z then 9 # 10 else 3 # 10)
    (fun _ _ => 0)
    (fun _ _ => 9000)
    (fun a b => if (a =? 12)%Z then 2 # 10 else 1)
    [alice; bob; carol].

(** *** A world whose crops remember the rectangle *)

(** As [world_of], but the crop of picture [p] at a rectangle with corner
    [(x, y)] is picture [1000 * p + x]. *)
Definition cropping_world (s : Scene) : World := {|
  Image := Z;
  Hist := Z;
  Encoding := Z;
  Features := unit;
  path_exists := path_exists (World := world_of s);
  imread := imread (World := world_of s);
  imdecode := imdecode (World := world_of s);
  shape := shape (World := world_of s);
  crop := fun img r => (1000 * img + rx r)%Z;
  np_mse := np_mse (World := world_of s);
  np_norm_diff := np_norm_diff (World := world_of s);
  features_len := features_len (World := world_of s);
  cvtColor := cvtColor (World := world_of s);
  equalizeHist := equalizeHist (World := world_of s);
  clahe_apply := clahe_apply (World := world_of s);
  resize := resize (World := world_of s);
  face_detect := face_detect (World := world_of s);
  eye_detect := eye_detect (World := world_of s);
  warp_rotate := warp_rotate (World := world_of s);
  matchTemplate := matchTemplate (World := world_of s);
  calcHist := calcHist (World := world_of s);
  normalize_minmax := normalize_minmax (World := world_of s);
  compareHist := compareHist (World := world_of s);
  ssim := ssim (World := world_of s);
  face_locations := face_locations (World := world_of s);
  face_encodings := face_encodings (World := world_of s);
  face_distance := face_distance (World := world_of s);
  pickle_dump := pickle_dump (World := world_of s);
  extract_facial_features := extract_facial_features (World := world_of s);
  users_find := users_find (World := world_of s);
  find_image_path := find_image_path (World := world_of s)
|}.

(** *** A picture with three faces, the two largest of equal area *)

Definition three_faces : list Rect :=
  [mkRect 5 5 10 10; mkRect 40 30 120 120; mkRect 300 30 120 120].

Definition group_photo : Scene :=
  mkScene [("capture.jpg", 1%Z)]
    (fun p => if (p =? 1)%Z then three_faces else [])
    (fun _ => []) (fun p => p)
    (fun _ _ => 1) (fun _ _ => 1) (fun _ _ => 1) (fun _ _ => 0) (fun _ _ => 0) [].

(** Fewer than two eyes came back, or the eye cascade raised. *)
Definition few_eyes (c : exc (list Rect)) : bool :=
  match c with
  | Ok (_ :: _ :: _) => false
  | _ => true
  end.

(** *** A face the cascade only finds at the coarsest scale factor *)

Definition faint : Scene :=
  mkScene [("capture.jpg", 1%Z)]
    (fun _ => []) (fun _ => []) (fun p => p)
    (fun _ _ => 1) (fun _ _ => 1) (fun _ _ => 1) (fun _ _ => 0) (fun _ _ => 0) [].

(** As [world_of faint], with a cascade that finds the face at scale
    factor 1.3 only. *)
Definition faint_world : World := {|
  Image := Z;
  Hist := Z;
  Encoding := Z;
  Features := unit;
  path_exists := path_exists (World := world_of faint);
  imread := imread (World := world_of faint);
  imdecode := imdecode (World := world_of faint);
  shape := shape (World := world_of faint);
  crop := crop (World := world_of faint);
  np_mse := np_mse (World := world_of faint);
  np_norm_diff := np_norm_diff (World := world_of faint);
  features_len := features_len (World := world_of faint);
  cvtColor := cvtColor (World := world_of faint);
  equalizeHist := equalizeHist (World := world_of faint);
  clahe_apply := clahe_apply (World := world_of faint);
  resize := resize (World := world_of faint);
  face_detect := fun _ scale_factor _ =>
    Ok (if Qeq_bool scale_factor (13 # 10) then one_face else []);
  eye_detect := eye_detect (World := world_of faint);
  warp_rotate := warp_rotate (World := world_of faint);
  matchTemplate := matchTemplate (World := world_of faint);
  calcHist := calcHist (World := world_of faint);
  normalize_minmax := normalize_minmax (World := world_of faint);
  compareHist := compareHist (World := world_of faint);
  ssim := ssim (World := world_of faint);
  face_locations := face_locations (World := world_of faint);
  face_encodings := face_encodings (World := world_of faint);
  face_distance := face_distance (World := world_of faint);
  pickle_dump := pickle_dump (World := world_of faint);
  extract_facial_features := extract_facial_features (World := world_of faint);
  users_find := users_find (World := world_of faint);
  find_image_path := find_image_path (World := world_of faint)
|}.

(** *** The negative pair, stored in two files *)

Definition negative_pair_files : Scene :=
  mkScene [("capture.jpg", 1%Z); ("static/faces/u1.jpg", 2%Z)]
    (fun _ => one_face) (fun _ => []) (fun p => p)
    (fun _ _ => -1) (fun _ _ => -(3 # 4)) (fun _ _ => -(1 # 2))
    (fun _ _ => 9000) (fun _ _ => 1) [].

(** [c in s] *)
Fixpoint has_char (c : ascii) (s : string) : bool :=
  match s with
  | EmptyString => false
  | String c' rest => Ascii.eqb c' c || has_char c rest
  end.

(** *** Disks and databases for the concrete runs *)

(** Every call succeeds. *)
Definition store_fine (s : Scene) : Store (H := world_of s) := {|
  makedirs := fun _ => Ok tt;
  imwrite := fun _ _ => Ok true;
  update_image_path := fun _ _ => Ok tt;
  output_exists := fun _ => true;
  os_remove := fun _ => Ok tt
|}.

(** The database is down: the write succeeds, the update raises. *)
Definition store_db_down (s : Scene) : Store (H := world_of s) := {|
  makedirs := fun _ => Ok tt;
  imwrite := fun _ _ => Ok true;
  update_image_path := fun _ _ => Raise "ServerSelectionTimeoutError";
  output_exists := fun _ => true;
  os_remove := fun _ => Ok tt
|}.

(** The disk is full: [cv2.imwrite] answers False. *)
Definition store_disk_full (s : Scene) : Store (H := world_of s) := {|
  makedirs := fun _ => Ok tt;
  imwrite := fun _ _ => Ok false;
  update_image_path := fun _ _ => Ok tt;
  output_exists := fun _ => false;
  os_remove := fun _ => Ok tt
|}.

(** *** A new user registers, then verifies *)

Definition registration : Scene :=
  mkScene [("upload.jpg", 12%Z); ("capture.jpg", 1%Z);
           ("static/faces/64b2.jpg", 12%Z)]
    (fun _ => one_face) (fun _ => []) (fun p => p)
    (fun _ _ => 0)
    (fun a b => if (b =? 12)%Z then 9 # 10 else 2 # 100)
    (fun _ _ => 0)
    (fun _ _ => 9000)
    (fun a b => if (a =? 12)%Z then 2 # 10 else 1)
    [].

(** *** A database that knows where a user's face is, and an upload in memory *)

(** As [world_of s], but the user record of [uid] holds [image_path], and
    the bytes [data] decode to picture [img]. *)
Definition registered_world (s : Scene) (uid image_path data : string) (img : Z)
    : World := {|
  Image := Z;
  Hist := Z;
  Encoding := Z;
  Features := unit;
  path_exists := path_exists (World := world_of s);
  imread := imread (World := world_of s);
  imdecode := fun d => Ok (if String.eqb d data then Some img else None);
  shape := shape (World := world_of s);
  crop := crop (World := world_of s);
  np_mse := np_mse (World := world_of s);
  np_norm_diff := np_norm_diff (World := world_of s);
  features_len := features_len (World := world_of s);
  cvtColor := cvtColor (World := world_of s);
  equalizeHist := equalizeHist (World := world_of s);
  clahe_apply := clahe_apply (World := world_of s);
  resize := resize (World := world_of s);
  face_detect := face_detect (World := world_of s);
  eye_detect := eye_detect (World := world_of s);
  warp_rotate := warp_rotate (World := world_of s);
  matchTemplate := matchTemplate (World := world_of s);
  calcHist := calcHist (World := world_of s);
  normalize_minmax := normalize_minmax (World := world_of s);
  compareHist := compareHist (World := world_of s);
  ssim := ssim (World := world_of s);
  face_locations := face_locations (World := world_of s);
  face_encodings := face_encodings (World := world_of s);
  face_distance := face_distance (World := world_of s);
  pickle_dump := pickle_dump (World := world_of s);
  extract_facial_features := extract_facial_features (World := world_of s);
  users_find := users_find (World := world_of s);
  find_image_path := fun u =>
    Ok (if String.eqb u uid then Some image_path else None)
|}.

(** * Properties *)

(** ** Arithmetic of the Python comparisons *)

Lemma Qgtb_lt (a b : Q) : Qgtb a b = true <-> b < a.
Proof.
  unfold Qgtb. rewrite negb_true_iff, <- not_true_iff_false, Qle_bool_iff.
  split; [apply Qnot_le_lt | apply Qlt_not_le].
Qed.

Lemma Qgtb_le (a b : Q) : Qgtb a b = false <-> a <= b.
Proof. unfold Qgtb. rewrite negb_false_iff. apply Qle_bool_iff. Qed.

Lemma Qgeb_le (a b : Q) : Qgeb a b = true <-> b <= a.
Proof. apply Qle_bool_iff. Qed.

Lemma Qgeb_lt (a b : Q) : Qgeb a b = false <-> a < b.
Proof.
  unfold Qgeb. rewrite <- not_true_iff_false, Qle_bool_iff.
  split; [apply Qnot_le_lt | apply Qlt_not_le].
Qed.

Lemma pymax_cases (a b : Q) :
  (pymax a b = a /\ b <= a) \/ (pymax a b = b /\ a < b).
Proof.
  unfold pymax. destruct (Qgtb b a) eqn:E.
  - right. split; [reflexivity | now apply Qgtb_lt].
  - left. split; [reflexivity | now apply Qgtb_le].
Qed.

Lemma pymin_cases (a b : Q) :
  (pymin a b = a /\ a <= b) \/ (pymin a b = b /\ b < a).
Proof.
  unfold pymin. destruct (Qgtb a b) eqn:E.
  - right. split; [reflexivity | now apply Qgtb_lt].
  - left. split; [reflexivity | now apply Qgtb_le].
Qed.

Lemma pymax_ge_l (a b : Q) : a <= pymax a b.
Proof. destruct (pymax_cases a b) as [[-> ?]|[-> ?]]; lra. Qed.

Lemma pymax_ge_r (a b : Q) : b <= pymax a b.
Proof. destruct (pymax_cases a b) as [[-> ?]|[-> ?]]; lra. Qed.

Lemma pymax_lub (a b c : Q) : a <= c -> b <= c -> pymax a b <= c.
Proof. destruct (pymax_cases a b) as [[-> ?]|[-> ?]]; lra. Qed.

Lemma pymin_le_r (a b : Q) : pymin a b <= b.
Proof. destruct (pymin_cases a b) as [[-> ?]|[-> ?]]; lra. Qed.

Lemma pymin_glb (a b c : Q) : c <= a -> c <= b -> c <= pymin a b.
Proof. destruct (pymin_cases a b) as [[-> ?]|[-> ?]]; lra. Qed.

(** ** Proof automation for the exception monad *)

Ltac exc_simpl :=
  unfold mbind, mret, exc_bind, exc_ret, try_except in *; cbn beta iota in *.

(** Case analysis on an innermost scrutinee of the goal. *)
Ltac break_match :=
  match goal with
  | |- context [match ?x with _ => _ end] =>
      lazymatch x with
      | context [match _ with _ => _ end] => fail
      | _ => destruct x eqn:?
      end
  end.

Ltac break_all := repeat (exc_simpl; try break_match).

(** ** C10: absent arguments *)

(** C10. When either argument is [None], the pairwise scorers return
    similarity 0.0 (and match = False, respectively the empty report with
    best score 0.0) and do not raise:
    [simple_face_match.compute_similarity],
    [advanced_face_match.compare_faces] and
    [face_match.compute_similarity_multiple]. *)
Theorem none_arguments_score_zero `{World}
    (face : option Image) (encoding : option Encoding) (tolerance : Q) :
  Simple.compute_similarity None face = Ok 0 /\
  Simple.compute_similarity face None = Ok 0 /\
  Advanced.compare_faces None encoding tolerance = Ok (false, 0) /\
  Advanced.compare_faces encoding None tolerance = Ok (false, 0) /\
  FaceMatch.compute_similarity_multiple None face = Ok empty_report /\
  FaceMatch.compute_similarity_multiple face None = Ok empty_report /\
  best_score empty_report = 0.
Proof.
  unfold Simple.compute_similarity, Advanced.compare_faces,
    FaceMatch.compute_similarity_multiple.
  destruct face, encoding; repeat split; reflexivity.
Qed.

(** ** C3: verification never raises *)

(** C3. Whatever the inputs and whatever the libraries do (missing files,
    unreadable images, no detectable face, any exception raised inside),
    [verify_face] of [simple_face_match] and of [advanced_face_match]
    returns a result and does not raise. The result is either a failure
    result (match = False with an error description) or a verdict, and a
    verdict only arises when both files exist, both images were read and a
    face was found. *)
Theorem verify_face_never_raises `{World}
    (image_path stored_image_path : string) (threshold : Q)
    (align_faces enhance_contrast : bool) (known : gmap string Encoding) :
  (exists r,
     Simple.verify_face image_path stored_image_path threshold
       align_faces enhance_contrast = Ok r /\
     (failure_result r \/
      (verdict_result r /\
       path_exists image_path = true /\ path_exists stored_image_path = true /\
       exists img simg f1 f2,
         imread image_path = Ok (Some img) /\
         imread stored_image_path = Ok (Some simg) /\
         Simple.extract_face (Some img) align_faces enhance_contrast true = Ok (Some f1) /\
         Simple.extract_face (Some simg) align_faces enhance_contrast true = Ok (Some f2)))) /\
  (exists r known',
     Advanced.verify_face image_path stored_image_path threshold
       align_faces enhance_contrast known = (Ok r, known') /\
     (failure_result r \/
      (verdict_result r /\
       path_exists image_path = true /\ path_exists stored_image_path = true /\
       exists img simg enc,
         imread image_path = Ok (Some img) /\
         imread stored_image_path = Ok (Some simg) /\
         Advanced.get_face_encoding (Some img) = Ok (Some enc)))).
Proof.
  split.
  - unfold Simple.verify_face, failure_result, verdict_result.
    destruct (path_exists image_path) eqn:Hi;
      [destruct (path_exists stored_image_path) eqn:Hs|]; cbn [negb].
    + break_all; eexists; (split; [reflexivity|]); cbn;
        first [ left; split; [reflexivity | eexists; reflexivity]
              | right; repeat split; eauto 10 ].
    + eexists; split; [reflexivity|]. left. cbn. eauto.
    + eexists; split; [reflexivity|]. left. cbn. eauto.
  - unfold Advanced.verify_face, Advanced.st_try, failure_result, verdict_result.
    destruct (path_exists image_path) eqn:Hi;
      [destruct (path_exists stored_image_path) eqn:Hs|]; cbn [negb].
    + unfold mbind, mret, Advanced.St_bind, Advanced.St_ret, Advanced.lift,
        Advanced.lookup_known, Advanced.store_known, Advanced.save_face_encodings.
      repeat (cbn beta iota; break_match); try discriminate;
        repeat match goal with
               | E : (_, _) = (_, _) |- _ => inversion E; subst; clear E
               end;
        do 2 eexists; (split; [reflexivity|]); cbn;
        first [ left; split; [reflexivity | eexists; reflexivity]
              | right; repeat split; eauto 10 ].
    + do 2 eexists; split; [reflexivity|]. left. cbn. eauto.
    + do 2 eexists; split; [reflexivity|]. left. cbn. eauto.
Qed.

(** ** C8: no face in either image *)



(** ** C5: an image against an identical copy *)

(** C5. The input file and the stored file hold the same image and a face
    is found in it. With the metrics in their documented ranges, one of
    them (whichever it is) scoring an array against itself at 1, and no
    library call raising on the face, [simple_face_match.verify_face]
    reports the fused similarity 1.0 and match = True, for every threshold
    up to 1 (the default is 0.05). *)
Theorem identical_copy_scores_one `{World}
    (image_path stored_image_path : string) (threshold : Q)
    (align_faces enhance_contrast : bool) (img face resized : Image)
    (template_score ssim_score hist_score : Q) (hist normalized : Hist) :
  metric_ranges ->
  identity_law ->
  path_exists image_path = true ->
  path_exists stored_image_path = true ->
  imread image_path = Ok (Some img) ->
  imread stored_image_path = Ok (Some img) ->
  Simple.extract_face (Some img) align_faces enhance_contrast true = Ok (Some face) ->
  resize face (200, 200)%Z = Ok resized ->
  matchTemplate resized resized = Ok template_score ->
  ssim resized resized = Ok ssim_score ->
  calcHist resized = Ok hist ->
  normalize_minmax hist = Ok normalized ->
  compareHist normalized normalized = Ok hist_score ->
  threshold <= 1 ->
  exists r s,
    Simple.verify_face image_path stored_image_path threshold
      align_faces enhance_contrast = Ok r /\
    Simple.compute_similarity (Some face) (Some face) = Ok s /\
    r_similarity r = Some s /\ s == 1 /\ r_match r = true.
Proof.
  intros (Rt & Rs & Rh & _) Hone Hi Hs Ri Rsi Hf Er Et Es Ec En Eh Hthr.
  assert (Hc : Simple.compute_similarity (Some face) (Some face)
               = Ok (pymax (pymax template_score ssim_score) hist_score)).
  { unfold Simple.compute_similarity, Simple.similarity_metrics. exc_simpl.
    now rewrite Er, Et, Es, Ec, En, Eh. }
  assert (Hs1 : pymax (pymax template_score ssim_score) hist_score == 1).
  { pose proof (Rt _ _ _ Et). pose proof (Rs _ _ _ Es). pose proof (Rh _ _ _ Eh).
    apply Qle_antisym.
    - apply pymax_lub; [apply pymax_lub|]; lra.
    - pose proof (pymax_ge_l template_score ssim_score).
      pose proof (pymax_ge_r template_score ssim_score).
      pose proof (pymax_ge_l (pymax template_score ssim_score) hist_score).
      pose proof (pymax_ge_r (pymax template_score ssim_score) hist_score).
      destruct Hone as [L|[L|L]];
        [rewrite L in Et; injection Et as <-
        |rewrite L in Es; injection Es as <-
        |rewrite L in Eh; injection Eh as <-]; lra. }
  unfold Simple.verify_face. rewrite Hi, Hs. cbn [negb]. exc_simpl.
  rewrite Ri, Rsi, Hf. exc_simpl. rewrite Hc.
  do 2 eexists. repeat split; [exact Hs1|].
  cbn. apply Qgeb_le. lra.
Qed.

(** ** The winning entry of a scores dictionary *)

Lemma best_entry_spec (rest : list (string * Q)) (first : string * Q) :
  In (best_entry first rest) (first :: rest) /\
  forall e, In e (first :: rest) -> snd e <= snd (best_entry first rest).
Proof.
  unfold best_entry. revert first.
  induction rest as [|x rest IH]; intros first; cbn [fold_left].
  - split; [now left|]. intros e [<-|[]]. lra.
  - destruct (Qgtb (snd x) (snd first)) eqn:E.
    + apply Qgtb_lt in E. destruct (IH x) as [Hin Hmax]. split.
      * right. exact Hin.
      * intros e [<-|He]; [|now apply Hmax].
        specialize (Hmax x (or_introl eq_refl)). lra.
    + apply Qgtb_le in E. destruct (IH first) as [Hin Hmax]. split.
      * destruct Hin as [Hin|Hin]; [now left | right; now right].
      * intros e [<-|[<-|He]].
        -- apply Hmax. now left.
        -- specialize (Hmax first (or_introl eq_refl)). lra.
        -- apply Hmax. now right.
Qed.

Lemma score_of_In (l : list (string * Q)) (k : string) (v : Q) :
  NoDup (map fst l) -> In (k, v) l -> score_of k l = Some v.
Proof.
  induction l as [|[k' v'] l IH]; intros Hnd Hin; [destruct Hin|].
  cbn [score_of]. inversion Hnd as [|? ? Hnotin Hnd']; subst.
  destruct Hin as [E|Hin].
  - inversion E; subst. now rewrite String.eqb_refl.
  - destruct (String.eqb k k') eqn:E.
    + apply String.eqb_eq in E. subst k'. exfalso. apply Hnotin.
      apply list_elem_of_In. change k with (fst (k, v)). now apply in_map.
    + now apply IH.
Qed.

Section ScoresOfFaceMatch.
Context `{W : World}.

Lemma facial_features_score_shape (face1 face2 : Image) (l : list (string * Q)) :
  FaceMatch.facial_features_score face1 face2 = Ok l ->
  l = [] \/ exists v, l = [("facial_features", v)] /\ 0 < v <= 1.
Proof.
  unfold FaceMatch.facial_features_score. break_all; intros E;
    inversion E; subst; auto; right; eexists; (split; [reflexivity|]).
  - match goal with G : Qgtb _ _ = true |- _ => apply Qgtb_lt in G end.
    split; [apply Qlt_shift_div_l | apply Qle_shift_div_r]; lra.
  - lra.
Qed.

(** The dictionary filled by the [try] block: its four fixed entries, then
    the optional one. *)
Lemma all_scores_shape (face1 face2 : Image) (l : list (string * Q)) :
  FaceMatch.all_scores face1 face2 = Ok l ->
  exists t s h m extra,
    l = ([("template", t); ("ssim", s); ("histogram", h);
          ("mse", 1 - pymin 1 (m / 10000))] ++ extra)%list /\
    (extra = [] \/ exists v, extra = [("facial_features", v)] /\ 0 < v <= 1) /\
    (exists a b, matchTemplate a b = Ok t) /\
    (exists a b, ssim a b = Ok s) /\
    (exists a b, compareHist a b = Ok h) /\
    (exists a b, np_mse a b = Ok m).
Proof.
  unfold FaceMatch.all_scores. intros E.
  repeat (exc_simpl;
          match type of E with
          | context [match ?x with _ => _ end] =>
              lazymatch x with
              | context [match _ with _ => _ end] => fail
              | _ => destruct x eqn:?; try discriminate E
              end
          end).
  inversion E; subst; clear E.
  do 5 eexists. split; [reflexivity|].
  split; [eapply facial_features_score_shape; eassumption|].
  repeat split; do 2 eexists; eassumption.
Qed.

Lemma all_scores_keys (face1 face2 : Image) (l : list (string * Q)) :
  FaceMatch.all_scores face1 face2 = Ok l -> NoDup (map fst l).
Proof.
  intros E. apply all_scores_shape in E.
  destruct E as (t & s & h & m & extra & -> & [->|(v & -> & _)] & _);
    cbn; apply (bool_decide_unpack _); vm_compute; exact I.
Qed.

End ScoresOfFaceMatch.

(** ** C4: the fused score is the maximum of the metrics *)

Lemma multiple_takes_the_maximum `{World} (face1 face2 : Image) :
  exists rep,
    FaceMatch.compute_similarity_multiple (Some face1) (Some face2) = Ok rep /\
    (((exists e, FaceMatch.all_scores face1 face2 = Raise e) /\ rep = empty_report)
     \/
     (FaceMatch.all_scores face1 face2 = Ok (scores rep) /\
      scores rep <> [] /\
      (forall k v, In (k, v) (scores rep) -> v <= best_score rep) /\
      exists name,
        method rep = Some name /\
        score_of name (scores rep) = Some (best_score rep))).
Proof.
  unfold FaceMatch.compute_similarity_multiple. exc_simpl.
  destruct (FaceMatch.all_scores face1 face2) as [l|e] eqn:E.
  - pose proof (all_scores_keys _ _ _ E) as Hnd.
    destruct l as [|s rest].
    { apply all_scores_shape in E.
      destruct E as (? & ? & ? & ? & ? & E & _). discriminate E. }
    destruct (best_entry_spec rest s) as [Hin Hmax].
    eexists. split; [reflexivity|]. right. cbn [scores best_score method].
    split; [reflexivity|]. split; [discriminate|]. split.
    + intros k v Hkv. exact (Hmax (k, v) Hkv).
    + exists (fst (best_entry s rest)). split; [reflexivity|].
      apply score_of_In; [exact Hnd|].
      now destruct (best_entry s rest).
  - eexists. split; [reflexivity|]. left. eauto.
Qed.

Lemma simple_takes_the_maximum `{World} (face1 face2 : Image) :
  exists s,
    Simple.compute_similarity (Some face1) (Some face2) = Ok s /\
    (((exists e, Simple.similarity_metrics face1 face2 = Raise e) /\ s = 0)
     \/
     (exists template_score ssim_score hist_score,
        Simple.similarity_metrics face1 face2
          = Ok (template_score, ssim_score, hist_score) /\
        template_score <= s /\ ssim_score <= s /\ hist_score <= s /\
        (s = template_score \/ s = ssim_score \/ s = hist_score))).
Proof.
  unfold Simple.compute_similarity. exc_simpl.
  destruct (Simple.similarity_metrics face1 face2) as [[[t ss] h]|e] eqn:E.
  - eexists. split; [reflexivity|]. right. exists t, ss, h.
    split; [reflexivity|].
    pose proof (pymax_ge_l t ss). pose proof (pymax_ge_r t ss).
    pose proof (pymax_ge_l (pymax t ss) h).
    pose proof (pymax_ge_r (pymax t ss) h).
    repeat split; try lra.
    destruct (pymax_cases (pymax t ss) h) as [[-> _]|[-> _]]; [|auto].
    destruct (pymax_cases t ss) as [[-> _]|[-> _]]; auto.
  - eexists. split; [reflexivity|]. left. eauto.
Qed.




(** ** C2: the range of the fused score *)

(** C2 (amended). With the metrics in their documented ranges, the fused
    score of [face_match.compute_similarity_multiple] lies in [0, 1] for
    every pair of faces, and the score of
    [simple_face_match.compute_similarity] lies in [-1, 1]: it is at most
    1, but its three metrics are not floored at 0. *)
Theorem fused_score_range `{World} (face1 face2 : option Image) :
  metric_ranges ->
  (exists rep,
     FaceMatch.compute_similarity_multiple face1 face2 = Ok rep /\
     0 <= best_score rep <= 1) /\
  (exists s,
     Simple.compute_similarity face1 face2 = Ok s /\ -1 <= s <= 1).
Proof.
  intros (Ht & Hs & Hh & Hm).
  destruct face1 as [face1|], face2 as [face2|];
    try (split; eexists; (split; [reflexivity|]); cbn; lra).
  pose proof (multiple_takes_the_maximum face1 face2) as HF.
  pose proof (simple_takes_the_maximum face1 face2) as HS. split.
  - destruct HF as (rep & -> & [[_ ->]|(E & _ & Hmax & name & _ & Hname)]).
    + eexists. split; [reflexivity|]. cbn. lra.
    + eexists. split; [reflexivity|].
      apply all_scores_shape in E.
      destruct E as (t & s & h & m & extra & El & Hextra & (?&?&Et) & (?&?&Es)
                     & (?&?&Eh) & (?&?&Em)).
      apply Ht in Et. apply Hs in Es. apply Hh in Eh. apply Hm in Em.
      pose proof (pymin_le_r 1 (m / 10000)) as Hle.
      assert (Hge : 0 <= pymin 1 (m / 10000)).
      { apply pymin_glb; [lra|]. apply Qle_shift_div_l; lra. }
      assert (Hle1 : pymin 1 (m / 10000) <= 1).
      { destruct (pymin_cases 1 (m / 10000)) as [[-> _]|[-> ?]]; lra. }
      split.
      * apply (Qle_trans _ (1 - pymin 1 (m / 10000))); [lra|].
        apply (Hmax "mse"). rewrite El. cbn. auto.
      * assert (Hall : forall k v, In (k, v) (scores rep) -> v <= 1).
        { rewrite El. intros k v Hin. apply in_app_or in Hin.
          destruct Hin as [Hin|Hin].
          - cbn in Hin.
            destruct Hin as [E|[E|[E|[E|[]]]]]; inversion E; subst; lra.
          - destruct Hextra as [->|(w & -> & Hw)]; [destruct Hin|].
            destruct Hin as [E|[]]. inversion E; subst. lra. }
        clear El. revert Hname Hall. generalize (scores rep) as l.
        induction l as [|[k v] l IH]; cbn [score_of]; [discriminate|].
        intros Hname Hall. destruct (String.eqb name k).
        -- injection Hname as Hv. rewrite <- Hv. apply (Hall k). now left.
        -- apply IH; [exact Hname|]. intros k' v' Hin. apply (Hall k'). now right.
  - destruct HS as (s & -> & [[_ ->]|(t & ss & h & E & ? & ? & ? & Hone)]).
    + eexists. split; [reflexivity|]. lra.
    + eexists. split; [reflexivity|].
      unfold Simple.similarity_metrics in E.
      repeat (exc_simpl;
              match type of E with
              | context [match ?x with _ => _ end] =>
                  lazymatch x with
                  | context [match _ with _ => _ end] => fail
                  | _ => destruct x eqn:?; try discriminate E
                  end
              end).
      inversion E; subst.
      repeat match goal with
             | G : matchTemplate _ _ = Ok _ |- _ => apply Ht in G
             | G : ssim _ _ = Ok _ |- _ => apply Hs in G
             | G : compareHist _ _ = Ok _ |- _ => apply Hh in G
             end.
      destruct Hone as [-> | [-> | ->]]; lra.
Qed.



Lemma same_picture_in_range : metric_ranges (H := world_of same_picture).
Proof.
  unfold metric_ranges; cbn.
  split; [|split; [|split]]; intros ? ? ? E; injection E as <-;
    try split; apply Qle_bool_imp_le; reflexivity.
Qed.

Lemma identical_copy_scores_one_witness :
  exists r s,
    Simple.verify_face (W := world_of same_picture)
      "capture.jpg" "static/faces/u1.jpg" (5 # 100) true true = Ok r /\
    Simple.compute_similarity (W := world_of same_picture) (Some 1%Z) (Some 1%Z) = Ok s /\
    r_similarity r = Some s /\ s == 1 /\ r_match r = true.
Proof.
  apply (identical_copy_scores_one (H := world_of same_picture)
           "capture.jpg" "static/faces/u1.jpg" (5 # 100) true true 1%Z 1%Z 1%Z
           1 1 1 1%Z 1%Z same_picture_in_range).
  - right. left. intros a. reflexivity.
  - reflexivity.
  - reflexivity.
  - reflexivity.
  - reflexivity.
  - reflexivity.
  - reflexivity.
  - reflexivity.
  - reflexivity.
  - reflexivity.
  - reflexivity.
  - reflexivity.
  - apply Qle_bool_imp_le. reflexivity.
Defined.

Lemma negative_pair_in_range : metric_ranges (H := world_of negative_pair).
Proof.
  unfold metric_ranges; cbn.
  split; [|split; [|split]]; intros ? ? ? E; injection E as <-;
    try split; apply Qle_bool_imp_le; reflexivity.
Qed.

(** C2, as stated, fails: both arguments are 200x200 grayscale crops, every
    metric is inside its documented range, and the fused score of
    [simple_face_match.compute_similarity] is -1/2, below 0. *)
Lemma fused_score_below_zero :
  metric_ranges (H := world_of negative_pair) /\
  Simple.compute_similarity (W := world_of negative_pair) (Some 1%Z) (Some 2%Z)
    = Ok (-(1 # 2)) /\
  ~ (0 <= -(1 # 2) <= 1).
Proof.
  split; [exact negative_pair_in_range|]. split; [reflexivity|].
  intros [H _]. revert H. apply Qlt_not_le. reflexivity.
Qed.

Lemma fused_score_range_witness :
  (exists rep,
     FaceMatch.compute_similarity_multiple (W := world_of negative_pair)
       (Some 1%Z) (Some 2%Z) = Ok rep /\
     0 <= best_score rep <= 1) /\
  (exists s,
     Simple.compute_similarity (W := world_of negative_pair)
       (Some 1%Z) (Some 2%Z) = Ok s /\ -1 <= s <= 1).
Proof.
  apply (fused_score_range (H := world_of negative_pair) (Some 1%Z) (Some 2%Z)).
  unfold metric_ranges; cbn.
  split; [|split; [|split]]; intros ? ? ? E; injection E as <-;
    try split; apply Qle_bool_imp_le; reflexivity.
Defined.

(** ** C7: the embedding comparison *)

Lemma verdict_comes_from_compare_faces `{World}
    (image_path stored_image_path : string) (threshold : Q)
    (align_faces enhance_contrast : bool) (known known' : gmap string Encoding)
    (r : VerifyResult) :
  Advanced.verify_face image_path stored_image_path threshold
    align_faces enhance_contrast known = (Ok r, known') ->
  verdict_result r ->
  exists img enc stored s,
    imread image_path = Ok (Some img) /\
    Advanced.get_face_encoding (Some img) = Ok (Some enc) /\
    (known !! before_dot (basename stored_image_path) = Some stored \/
     (known !! before_dot (basename stored_image_path) = None /\
      exists simg,
        imread stored_image_path = Ok (Some simg) /\
        Advanced.get_face_encoding (Some simg) = Ok (Some stored))) /\
    Advanced.compare_faces (Some stored) (Some enc) threshold = Ok (r_match r, s) /\
    r_similarity r = Some s.
Proof.
  unfold Advanced.verify_face, Advanced.st_try, verdict_result.
  unfold mbind, mret, Advanced.St_bind, Advanced.St_ret, Advanced.lift,
    Advanced.lookup_known, Advanced.store_known, Advanced.save_face_encodings.
  repeat (cbn beta iota; break_match); try discriminate;
    repeat match goal with
           | E : (_, _) = (_, _) |- _ => inversion E; subst; clear E
           end;
    intros E; inversion E; subst; clear E; cbn;
    intros (Herr & Hdet & Hsim); try discriminate;
    do 4 eexists; (split; [reflexivity|]); (split; [eassumption|]);
    (split;
     [first [ left; reflexivity
            | right; split; [reflexivity|]; eexists;
              split; [reflexivity | eassumption] ]
     |split; [eassumption | reflexivity]]).
Qed.

(** C7 (amended). For two embeddings at distance [d] and a tolerance [t],
    [compare_faces] returns the similarity 1 - min(d, 1) and declares a
    match exactly when d <= t. In [advanced_face_match.verify_face] the
    match flag and the similarity of a verdict are those of [compare_faces]
    at t = threshold on the stored encoding (the dictionary entry of the
    user, or else the encoding of the stored image) and the encoding of the
    capture: with these two at distance [d'], match is d' <= threshold,
    whatever the alternative methods score. *)
Theorem embedding_comparison `{World} (e1 e2 : Encoding) (t d : Q) :
  face_distance e1 e2 = Ok d ->
  Advanced.compare_faces (Some e1) (Some e2) t = Ok (Qle_bool d t, 1 - pymin d 1) /\
  (Qle_bool d t = true <-> d <= t) /\
  ((d <= 1 /\ pymin d 1 = d) \/ (1 < d /\ pymin d 1 = 1)) /\
  forall image_path stored_image_path threshold align_faces enhance_contrast
         known known' r,
    Advanced.verify_face image_path stored_image_path threshold
      align_faces enhance_contrast known = (Ok r, known') ->
    verdict_result r ->
    exists img enc stored s,
      imread image_path = Ok (Some img) /\
      Advanced.get_face_encoding (Some img) = Ok (Some enc) /\
      (known !! before_dot (basename stored_image_path) = Some stored \/
       (known !! before_dot (basename stored_image_path) = None /\
        exists simg,
          imread stored_image_path = Ok (Some simg) /\
          Advanced.get_face_encoding (Some simg) = Ok (Some stored))) /\
      Advanced.compare_faces (Some stored) (Some enc) threshold
        = Ok (r_match r, s) /\
      r_similarity r = Some s /\
      forall d',
        face_distance stored enc = Ok d' ->
        (r_match r = true <-> d' <= threshold) /\ s = 1 - pymin d' 1.
Proof.
  intros Hd.
  assert (Hcmp : forall a b t' d', face_distance a b = Ok d' ->
            Advanced.compare_faces (Some a) (Some b) t'
            = Ok (Qle_bool d' t', 1 - pymin d' 1)).
  { intros a b t' d' E. unfold Advanced.compare_faces. exc_simpl. now rewrite E. }
  split; [|split; [|split]].
  - now apply Hcmp.
  - apply Qle_bool_iff.
  - destruct (pymin_cases d 1) as [[E ?]|[E ?]]; auto.
  - intros image_path stored_image_path threshold align_faces enhance_contrast
           known known' r Hrun Hverdict.
    destruct (verdict_comes_from_compare_faces _ _ _ _ _ _ _ _ Hrun Hverdict)
      as (img & enc & stored & s & Ei & Ee & Hstored & Ec & Es).
    exists img, enc, stored, s.
    split; [exact Ei|]. split; [exact Ee|]. split; [exact Hstored|].
    split; [exact Ec|]. split; [exact Es|].
    intros d' Ed'. rewrite (Hcmp _ _ threshold _ Ed') in Ec.
    injection Ec as Em Es'. split.
    + rewrite <- Em. apply Qle_bool_iff.
    + symmetry. exact Es'.
Qed.

Lemma embedding_comparison_witness :
  Advanced.compare_faces (W := world_of lookalike) (Some 2%Z) (Some 1%Z) (1 # 2)
    = Ok (false, 3 # 10) /\
  exists r known',
    Advanced.verify_face (W := world_of lookalike)
      "capture.jpg" "static/faces/u1.jpg" (1 # 2) true true ∅ = (Ok r, known') /\
    r_match r = false /\
    exists img enc stored s,
      imread (World := world_of lookalike) "capture.jpg" = Ok (Some img) /\
      Advanced.get_face_encoding (W := world_of lookalike) (Some img) = Ok (Some enc) /\
      ((∅ : gmap string Z) !! before_dot (basename "static/faces/u1.jpg") = Some stored \/
       ((∅ : gmap string Z) !! before_dot (basename "static/faces/u1.jpg") = None /\
        exists simg,
          imread (World := world_of lookalike) "static/faces/u1.jpg" = Ok (Some simg) /\
          Advanced.get_face_encoding (W := world_of lookalike) (Some simg)
          = Ok (Some stored))) /\
      Advanced.compare_faces (W := world_of lookalike) (Some stored) (Some enc) (1 # 2)
        = Ok (r_match r, s) /\
      r_similarity r = Some s /\
      forall d',
        face_distance (World := world_of lookalike) stored enc = Ok d' ->
        (r_match r = true <-> d' <= 1 # 2) /\ s = 1 - pymin d' 1.
Proof.
  destruct (embedding_comparison (H := world_of lookalike) 2%Z 1%Z (1 # 2) (7 # 10)
              eq_refl) as (E & _ & _ & Hverdict).
  split; [exact E|].
  do 2 eexists. split; [vm_compute; reflexivity|]. split; [reflexivity|].
  refine (Hverdict "capture.jpg" "static/faces/u1.jpg" (1 # 2) true true
            (∅ : gmap string Z) _ _ _ _).
  - vm_compute. reflexivity.
  - repeat split. eexists. reflexivity.
Defined.

(** C7, as stated, fails on its second half: the embedding distance 0.7 is
    outside the tolerance 0.5, the fused score 0.9 clears the threshold
    0.5, so the spec declares a match; [verify_face] reports no match. *)
Lemma fused_score_does_not_decide_match :
  exists r known',
    Advanced.verify_face (W := world_of lookalike)
      "capture.jpg" "static/faces/u1.jpg" (1 # 2) true true ∅ = (Ok r, known') /\
    face_distance (World := world_of lookalike) 2%Z 1%Z = Ok (7 # 10) /\
    spec_fused_score r = 9 # 10 /\
    spec_match (7 # 10) (1 # 2) (spec_fused_score r) (1 # 2) = true /\
    r_match r = false.
Proof.
  do 2 eexists. split; [vm_compute; reflexivity|]. repeat split.
Qed.

(** ** C1: the verdict of face_match.verify_face *)

(** C1, on [face_match.verify_face]: both images hold a face, the computed
    fused similarity is 0.3 (histogram), the threshold is 0.5; the result
    nevertheless says match = True with similarity 0.8. The sibling
    [simple_face_match.verify_face] reports 0.3 and match = False on the
    same images. *)
Theorem face_match_verdict_ignores_similarity :
  FaceMatch.compute_similarity_multiple (W := world_of strangers)
    (Some 1%Z) (Some 2%Z)
    = Ok (mkReport (3 # 10) (Some "histogram")
            [("template", 12 # 100); ("ssim", 2 # 10); ("histogram", 3 # 10);
             ("mse", 2500 # 10000)]) /\
  (exists r,
     FaceMatch.verify_face (W := world_of strangers)
       (Some "capture.jpg") (Some "static/faces/u1.jpg") None (1 # 2) None
       true true = Ok r /\
     r_face_detected r = Some true /\
     r_match r = true /\ r_similarity r = Some (8 # 10)) /\
  (exists r,
     Simple.verify_face (W := world_of strangers)
       "capture.jpg" "static/faces/u1.jpg" (1 # 2) true true = Ok r /\
     r_match r = false /\ r_similarity r = Some (3 # 10)).
Proof.
  split; [reflexivity|]. split; eexists; (split; [reflexivity|]); repeat split.
Qed.

(** ** C9: alignment and the fallback region *)


Lemma extract_face_unfold `{World} (img gray : Image) (f : Rect) (fs : list Rect)
    (align_faces enhance_contrast normalize_lighting : bool) :
  FaceMatch.preprocess_image (Some img) normalize_lighting enhance_contrast
    = Ok (Some gray) ->
  FaceMatch.detect_faces gray [11 # 10; 12 # 10; 13 # 10] [] = Ok (f :: fs) ->
  FaceMatch.extract_face (Some img) align_faces enhance_contrast normalize_lighting
  = try_except
      (face_roi ← FaceMatch.face_region gray (largest f fs) align_faces;
       face_roi ← resize face_roi (200, 200)%Z;
       face_roi ← (if enhance_contrast && negb normalize_lighting
                   then clahe_apply face_roi else Ok face_roi);
       Ok (Some face_roi))
      (fun _ => Ok None).
Proof.
  intros Hp Hd. unfold FaceMatch.extract_face.
  rewrite Hp. unfold mbind at 1. unfold exc_bind at 1. cbn beta iota.
  rewrite Hd. reflexivity.
Qed.




(** ** C6: the duplicate scan *)

Section SimpleScan.
Context `{W : World}.
Variables (input_face : Image) (threshold : Q).

Lemma simple_scan_user_returns (user : User) :
  exists o, Simple.scan_user input_face user = Ok o.
Proof.
  unfold Simple.scan_user.
  destruct (truthy (user_image_path user) && _); [|eauto].
  unfold try_except.
  match goal with
  | |- exists o, match ?body with _ => _ end = _ => destruct body; eauto
  end.
Qed.

(** Nobody clears the threshold: the loop runs to its end. *)
Lemma simple_scan_no_hit (users : list User) :
  (forall u s', In u users ->
     Simple.scan_user input_face u = Ok (Some s') -> s' <= threshold) ->
  forall best_match best_similarity,
    Simple.scan threshold input_face users best_match best_similarity = Ok None.
Proof.
  induction users as [|u users IH]; intros Hbelow bm bs; [reflexivity|].
  cbn [Simple.scan]. exc_simpl.
  destruct (simple_scan_user_returns u) as [[s'|] E]; rewrite E.
  - assert (Hs : s' <= threshold) by (eapply Hbelow; [now left | exact E]).
    apply Qgtb_le in Hs. rewrite Hs.
    apply IH. intros; eapply Hbelow; [right|]; eassumption.
  - apply IH. intros; eapply Hbelow; [right|]; eassumption.
Qed.

(** The first user who clears the threshold is returned. *)
Lemma simple_scan_first_hit (pre post : list User) (dup : User) (s : Q) :
  (forall u s', In u pre ->
     Simple.scan_user input_face u = Ok (Some s') -> s' <= threshold) ->
  Simple.scan_user input_face dup = Ok (Some s) ->
  threshold < s ->
  forall best_match best_similarity,
    Simple.scan threshold input_face (pre ++ dup :: post)%list
      best_match best_similarity
    = Ok (Some (Simple.user_info dup)).
Proof.
  intros Hbelow Hdup Hs.
  induction pre as [|u pre IH]; intros bm bs; cbn [Simple.scan app]; exc_simpl.
  - rewrite Hdup. apply Qgtb_lt in Hs. now rewrite Hs.
  - destruct (simple_scan_user_returns u) as [[s'|] E]; rewrite E.
    + assert (Hs' : s' <= threshold) by (eapply Hbelow; [now left | exact E]).
      apply Qgtb_le in Hs'. rewrite Hs'.
      apply IH. intros; eapply Hbelow; [right|]; eassumption.
    + apply IH. intros; eapply Hbelow; [right|]; eassumption.
Qed.

(** A user of [pre] who clears the threshold stops the loop inside [pre]. *)
Lemma simple_scan_earlier_hit (pre rest : list User) (u : User) (s : Q) :
  In u pre ->
  Simple.scan_user input_face u = Ok (Some s) ->
  threshold < s ->
  forall best_match best_similarity,
    exists v,
      In v pre /\
      Simple.scan threshold input_face (pre ++ rest)%list best_match best_similarity
      = Ok (Some (Simple.user_info v)).
Proof.
  intros Hu Eu Hs.
  induction pre as [|h pre IH]; intros bm bs; [destruct Hu|].
  cbn [Simple.scan app]. exc_simpl.
  destruct (simple_scan_user_returns h) as [[sh|] E]; rewrite E.
  - destruct (Qgtb sh threshold) eqn:G.
    + exists h. split; [now left | reflexivity].
    + destruct Hu as [->|Hu].
      * rewrite Eu in E. injection E as <-. apply Qgtb_le in G. lra.
      * destruct (IH Hu (fst (if Qgtb sh bs then (Some h, sh) else (bm, bs)))
                    (snd (if Qgtb sh bs then (Some h, sh) else (bm, bs))))
          as (v & Hv & ->).
        exists v. split; [now right | reflexivity].
  - destruct Hu as [->|Hu]; [rewrite Eu in E; discriminate E|].
    destruct (IH Hu bm bs) as (v & Hv & ->).
    exists v. split; [now right | reflexivity].
Qed.

End SimpleScan.

Section AdvancedScan.
Context `{W : World}.
Variables (encoding : Encoding).

Ltac st_simpl :=
  unfold mbind, mret, Advanced.St_bind, Advanced.St_ret, Advanced.lift,
    Advanced.lookup_known, Advanced.store_known, Advanced.save_face_encodings
    in *; cbn beta iota in *.

Lemma compare_faces_returns (a b : option Encoding) (t : Q) :
  exists m s, Advanced.compare_faces a b t = Ok (m, s) /\ 0 <= s /\
    forall t', exists m', Advanced.compare_faces a b t' = Ok (m', s).
Proof.
  unfold Advanced.compare_faces. exc_simpl.
  destruct a as [a|], b as [b|]; try (do 2 eexists; repeat split; [lra | eauto]).
  destruct (face_distance a b) as [d|e].
  - do 2 eexists. split; [reflexivity|]. split; [|eauto].
    pose proof (pymin_le_r d 1). lra.
  - do 2 eexists. repeat split; [lra | eauto].
Qed.

Lemma stored_encoding_of_eq (user : User) (known : gmap string Encoding) :
  Advanced.stored_encoding_of user known
  = match user_image_path user with
    | Some (String _ _ as user_image_path) =>
        if path_exists user_image_path then
          match known !! user_oid user with
          | Some stored_encoding => (Ok (Some stored_encoding), known)
          | None =>
              match imread user_image_path with
              | Ok (Some stored_image) =>
                  match Advanced.get_face_encoding (Some stored_image) with
                  | Ok (Some e) => (Ok (Some e), <[user_oid user := e]> known)
                  | Ok None => (Ok None, known)
                  | Raise e => (Raise e, known)
                  end
              | Ok None => (Ok None, known)
              | Raise e => (Raise e, known)
              end
          end
        else (Ok None, known)
    | _ => (Ok None, known)
    end.
Proof.
  unfold Advanced.stored_encoding_of. st_simpl.
  repeat (break_match; cbn beta iota); reflexivity.
Qed.

(** One user touches the dictionary at their own identifier only, and what
    is looked up there decides the outcome. *)
Lemma stored_encoding_of_frame (user : User) (known : gmap string Encoding) :
  forall k, k <> user_oid user ->
    snd (Advanced.stored_encoding_of user known) !! k = known !! k.
Proof.
  intros k Hk. rewrite stored_encoding_of_eq.
  repeat break_match; cbn [snd]; try reflexivity.
  apply lookup_insert_ne. congruence.
Qed.

Lemma stored_encoding_of_local (user : User) (known1 known2 : gmap string Encoding) :
  known1 !! user_oid user = known2 !! user_oid user ->
  fst (Advanced.stored_encoding_of user known1)
  = fst (Advanced.stored_encoding_of user known2).
Proof.
  intros E. rewrite !stored_encoding_of_eq, E.
  repeat break_match; reflexivity.
Qed.

Lemma scan_cons (threshold : Q) (user : User) (rest : list User)
    (best_match : option string) (best_similarity : Q) (known : gmap string Encoding) :
  Advanced.scan threshold encoding (user :: rest) best_match best_similarity known
  = match Advanced.stored_encoding_of user known with
    | (Ok None, known') =>
        Advanced.scan threshold encoding rest best_match best_similarity known'
    | (Ok (Some stored_encoding), known') =>
        match Advanced.compare_faces (Some stored_encoding) (Some encoding) threshold with
        | Ok (_, similarity) =>
            if Qgtb similarity best_similarity
            then Advanced.scan threshold encoding rest
                   (Advanced.username_or_default user) similarity known'
            else Advanced.scan threshold encoding rest best_match best_similarity known'
        | Raise e => (Raise e, known')
        end
    | (Raise e, known') => (Raise e, known')
    end.
Proof.
  cbn [Advanced.scan]. unfold mbind at 1. unfold Advanced.St_bind at 1.
  destruct (Advanced.stored_encoding_of user known) as [[[se|]|e] known'];
    try reflexivity.
  unfold mbind, Advanced.St_bind, Advanced.lift.
  destruct (Advanced.compare_faces (Some se) (Some encoding) threshold)
    as [[m s]|e]; [|reflexivity].
  now destruct (Qgtb s best_similarity).
Qed.


Variables (known0 : gmap string Encoding) (threshold s : Q).

Lemma similarity_of_known (user : User) (known : gmap string Encoding) (o : option Q) :
  known !! user_oid user = known0 !! user_oid user ->
  similarity_of encoding user known0 = Ok o ->
  match o with
  | None => fst (Advanced.stored_encoding_of user known) = Ok None
  | Some s' =>
      exists stored m,
        fst (Advanced.stored_encoding_of user known) = Ok (Some stored) /\
        Advanced.compare_faces (Some stored) (Some encoding) threshold = Ok (m, s')
  end.
Proof.
  intros Hk. rewrite (stored_encoding_of_local user known known0 Hk).
  unfold similarity_of. exc_simpl.
  destruct (fst (Advanced.stored_encoding_of user known0)) as [[stored|]|e];
    [| intros E; now inversion E | discriminate].
  destruct (compare_faces_returns (Some stored) (Some encoding) threshold)
    as (m & s1 & E1 & _ & Hind).
  destruct (Hind 0) as [m0 E0]. rewrite E0. intros E. inversion E; subst.
  eauto.
Qed.

(** One iteration on a user who is not the duplicate. *)
Lemma scan_step_other (user : User) (rest : list User)
    (best_match : option string) (best_similarity : Q)
    (known : gmap string Encoding) :
  known !! user_oid user = known0 !! user_oid user ->
  below encoding known0 s [user] ->
  exists bm bs,
    Advanced.scan threshold encoding (user :: rest) best_match best_similarity known
    = Advanced.scan threshold encoding rest bm bs
        (snd (Advanced.stored_encoding_of user known)) /\
    (best_similarity < s -> bs < s) /\
    (s <= best_similarity -> bm = best_match /\ bs = best_similarity).
Proof.
  intros Hk Hb. destruct (Hb user (or_introl eq_refl)) as (o & Ho & Hlt).
  pose proof (similarity_of_known user known o Hk Ho) as Hs.
  rewrite scan_cons.
  destruct (Advanced.stored_encoding_of user known) as [r known'] eqn:E.
  cbn [fst snd] in *. destruct o as [s'|].
  - destruct Hs as (stored & m & -> & ->).
    specialize (Hlt s' eq_refl).
    destruct (Qgtb s' best_similarity) eqn:G.
    + apply Qgtb_lt in G. do 2 eexists. split; [reflexivity|].
      split; [intros; exact Hlt | intros; lra].
    + do 2 eexists. split; [reflexivity|]. split; auto.
  - rewrite Hs. do 2 eexists. split; [reflexivity|]. split; auto.
Qed.

Lemma agrees_after (user : User) (rest : list User) (known : gmap string Encoding) :
  NoDup (map user_oid (user :: rest)) ->
  agrees known0 known (user :: rest) ->
  agrees known0 (snd (Advanced.stored_encoding_of user known)) rest.
Proof.
  intros Hnd Ha u Hu. cbn [map] in Hnd. apply NoDup_cons in Hnd as [Hnotin _].
  rewrite stored_encoding_of_frame; [apply Ha; now right|].
  intros E. apply Hnotin. rewrite <- E. apply list_elem_of_In.
  now apply in_map.
Qed.

(** Scanning users who all score below [s]: the best similarity stays below
    [s], and a best similarity of at least [s] is left as it is. *)
Lemma scan_others (users : list User) :
  forall known best_match best_similarity,
    NoDup (map user_oid users) -> agrees known0 known users ->
    below encoding known0 s users ->
    exists bm bs known',
      Advanced.scan threshold encoding users best_match best_similarity known
      = (Ok (bm, bs), known') /\
      (best_similarity < s -> bs < s) /\
      (s <= best_similarity -> bm = best_match /\ bs = best_similarity).
Proof.
  induction users as [|u users IH]; intros known bm bs Hnd Ha Hb.
  - do 3 eexists. split; [reflexivity|]. split; auto.
  - destruct (scan_step_other u users bm bs known) as (bm1 & bs1 & -> & Hlt & Hge).
    { apply Ha. now left. }
    { intros v [<-|[]]. apply Hb. now left. }
    destruct (IH (snd (Advanced.stored_encoding_of u known)) bm1 bs1)
      as (bm2 & bs2 & known2 & -> & Hlt2 & Hge2).
    { cbn [map] in Hnd. now apply NoDup_cons in Hnd as [_ ?]. }
    { now apply agrees_after. }
    { intros v Hv. apply Hb. now right. }
    do 3 eexists. split; [reflexivity|]. split.
    + intros Hbs. destruct (Qlt_le_dec bs1 s) as [?|Hc]; [auto|].
      specialize (Hlt Hbs). lra.
    + intros Hbs. destruct (Hge Hbs) as [-> ->]. auto.
Qed.

(** Scanning a corpus in which exactly [dup] scores [s] and everybody else
    scores below: the best match is [dup], at similarity [s]. *)
Lemma scan_finds_duplicate (post : list User) (dup : User) (pre : list User) :
  forall known best_match best_similarity,
    NoDup (map user_oid (pre ++ dup :: post)%list) ->
    agrees known0 known (pre ++ dup :: post)%list ->
    below encoding known0 s pre -> below encoding known0 s post ->
    similarity_of encoding dup known0 = Ok (Some s) ->
    best_similarity < s ->
    exists known',
      Advanced.scan threshold encoding (pre ++ dup :: post)%list
        best_match best_similarity known
      = (Ok (Advanced.username_or_default dup, s), known').
Proof.
  induction pre as [|u pre IH]; intros known bm bs Hnd Ha Hpre Hpost Hdup Hbs;
    cbn [app] in *.
  - pose proof (similarity_of_known dup known (Some s)
                  (Ha dup (or_introl eq_refl)) Hdup) as (stored & m & Es & Ec).
    rewrite scan_cons.
    pose proof (agrees_after dup post known Hnd Ha) as Ha'.
    destruct (Advanced.stored_encoding_of dup known) as [r known'].
    cbn [fst snd] in *. subst r. rewrite Ec.
    apply Qgtb_lt in Hbs. rewrite Hbs.
    destruct (scan_others post known' (Advanced.username_or_default dup) s)
      as (bm2 & bs2 & known2 & -> & _ & Hge); auto.
    { cbn [map] in Hnd. now apply NoDup_cons in Hnd as [_ ?]. }
    destruct Hge as [-> ->]; [lra|]. eauto.
  - destruct (scan_step_other u (pre ++ dup :: post)%list bm bs known)
      as (bm1 & bs1 & -> & Hlt & _).
    { apply Ha. now left. }
    { intros v [<-|[]]. apply Hpre. now left. }
    apply IH; auto.
    + cbn [map] in Hnd. now apply NoDup_cons in Hnd as [_ ?].
    + now apply agrees_after.
    + intros v Hv. apply Hpre. now right.
Qed.

End AdvancedScan.

(** C6 (amended). The registered users are [pre ++ dup :: post], the query
    scores [s] against [dup] and every other user is skipped or scores
    below [s]; [lo < s < hi].
    - The early-exit scan of [simple_face_match] returns the first user, in
      database order, who scores above the threshold: run at [lo] it
      returns [dup] when nobody before [dup] scores above [lo], and a user
      before [dup] otherwise; run at [hi] it reports no duplicate.
    - The best-of-corpus scan of [advanced_face_match], user identifiers
      being distinct, returns [dup] at [lo]; at [hi] it reports no
      duplicate, still naming [dup].
    The threshold, a local constant of both functions, is taken as a
    parameter. *)
Theorem duplicate_scan_returns_the_duplicate `{World}
    (image : option Image) (pre post : list User) (dup : User) (s lo hi : Q) :
  users_find = Ok (pre ++ dup :: post)%list ->
  lo < s -> s < hi ->
  (forall input_face,
     Simple.extract_face image false true true = Ok (Some input_face) ->
     Simple.scan_user input_face dup = Ok (Some s) ->
     (forall u s', In u (pre ++ post)%list ->
        Simple.scan_user input_face u = Ok (Some s') -> s' < s) ->
     ((forall u s', In u pre ->
         Simple.scan_user input_face u = Ok (Some s') -> s' <= lo) ->
      Simple.is_face_duplicate_at lo image = Ok (true, Simple.user_info dup)) /\
     (forall u s', In u pre ->
        Simple.scan_user input_face u = Ok (Some s') -> lo < s' ->
        exists v, In v pre /\
          Simple.is_face_duplicate_at lo image = Ok (true, Simple.user_info v)) /\
     Simple.is_face_duplicate_at hi image = Ok (false, None)) /\
  (forall rgb_image encoding known,
     NoDup (map user_oid (pre ++ dup :: post)%list) ->
     Advanced.preprocess_image image = Ok (Some rgb_image) ->
     Advanced.get_face_encoding (Some rgb_image) = Ok (Some encoding) ->
     similarity_of encoding dup known = Ok (Some s) ->
     below encoding known s (pre ++ post)%list ->
     (exists known',
        Advanced.is_face_duplicate_at lo image known
        = (Ok (true, Advanced.username_or_default dup), known')) /\
     (exists known',
        Advanced.is_face_duplicate_at hi image known
        = (Ok (false, Advanced.username_or_default dup), known'))).
Proof.
  intros Hfind Hlo Hhi. split.
  - intros input_face Hface Hdup Hothers.
    unfold Simple.is_face_duplicate_at. exc_simpl. rewrite Hface, Hfind.
    split; [|split].
    + intros Hbefore.
      now rewrite (simple_scan_first_hit input_face lo pre post dup s).
    + intros u s' Hu Eu Hs'.
      destruct (simple_scan_earlier_hit input_face lo pre (dup :: post) u s'
                  Hu Eu Hs' None 0) as (v & Hv & ->).
      exists v. split; [exact Hv | reflexivity].
    + rewrite simple_scan_no_hit; [reflexivity|].
      intros u s' Hu E. apply in_app_or in Hu.
      destruct Hu as [Hu|[<-|Hu]].
      * assert (s' < s) by (eapply Hothers; [apply in_or_app; left|]; eassumption).
        lra.
      * rewrite Hdup in E. inversion E; subst. lra.
      * assert (s' < s) by (eapply Hothers; [apply in_or_app; right|]; eassumption).
        lra.
  - intros rgb_image encoding known Hnd Hrgb Henc Hdup Hothers.
    assert (Hbelow : forall l, (forall u, In u l -> In u (pre ++ post)%list) ->
                               below encoding known s l).
    { intros l Hl u Hu. exact (Hothers u (Hl u Hu)). }
    assert (Hs0 : -1 < s).
    { unfold similarity_of in Hdup. exc_simpl.
      destruct (fst (Advanced.stored_encoding_of dup known)) as [[st|]|];
        try discriminate.
      destruct (compare_faces_returns (Some st) (Some encoding) 0)
        as (m & s1 & E1 & Hge & _).
      rewrite E1 in Hdup. inversion Hdup; subst. lra. }
    assert (Hscan : forall t, exists known',
              Advanced.scan t encoding (pre ++ dup :: post)%list None (-1) known
              = (Ok (Advanced.username_or_default dup, s), known')).
    { intros t. apply (scan_finds_duplicate encoding known t s post dup pre);
        auto.
      - intros u _. reflexivity.
      - apply Hbelow. intros; apply in_or_app; now left.
      - apply Hbelow. intros; apply in_or_app; now right. }
    unfold Advanced.is_face_duplicate_at, Advanced.st_try.
    unfold mbind, mret, Advanced.St_bind, Advanced.St_ret, Advanced.lift,
      Advanced.save_face_encodings.
    rewrite Hrgb, Henc, Hfind. split.
    + destruct (Hscan lo) as [known' ->]. eexists.
      assert (G : Qgeb s lo = true) by (apply Qgeb_le; lra).
      unfold try_except. destruct (pickle_dump known'); rewrite G; reflexivity.
    + destruct (Hscan hi) as [known' ->]. eexists.
      assert (G : Qgeb s hi = false) by (apply Qgeb_lt; lra).
      unfold try_except. destruct (pickle_dump known'); rewrite G; reflexivity.
Qed.

Lemma duplicate_scan_returns_the_duplicate_witness :
  (Simple.is_face_duplicate (W := world_of corpus) (Some 1%Z)
   = Ok (true, Some "bob (bob@example.com)") /\
   Simple.is_face_duplicate_at (W := world_of corpus) (95 # 100) (Some 1%Z)
   = Ok (false, None)) /\
  (exists v, In v [alice] /\
     Simple.is_face_duplicate (W := world_of crowded) (Some 1%Z)
     = Ok (true, Simple.user_info v)) /\
  ((exists known',
      Advanced.is_face_duplicate (W := world_of corpus) (Some 1%Z) ∅
      = (Ok (true, Some "bob"), known')) /\
   (exists known',
      Advanced.is_face_duplicate_at (W := world_of corpus) (9 # 10) (Some 1%Z) ∅
      = (Ok (false, Some "bob"), known'))).
Proof.
  split; [|split].
  - destruct (duplicate_scan_returns_the_duplicate (H := world_of corpus)
                (Some 1%Z) [alice] [carol] bob (9 # 10) (5 # 100) (95 # 100)
                eq_refl eq_refl eq_refl) as [HS _].
    destruct (HS 1%Z eq_refl eq_refl) as (Hlo & _ & Hhi).
    { intros u s' [<-|[<-|[]]] E; vm_compute in E; inversion E; reflexivity. }
    split; [|exact Hhi]. apply Hlo.
    intros u s' [<-|[]] E. vm_compute in E. inversion E. discriminate.
  - destruct (duplicate_scan_returns_the_duplicate (H := world_of crowded)
                (Some 1%Z) [alice] [carol] bob (9 # 10) (5 # 100) (95 # 100)
                eq_refl eq_refl eq_refl) as [HS _].
    destruct (HS 1%Z eq_refl eq_refl) as (_ & Hearlier & _).
    { intros u s' [<-|[<-|[]]] E; vm_compute in E; inversion E; reflexivity. }
    apply (Hearlier alice (3 # 10)); [now left | reflexivity | reflexivity].
  - destruct (duplicate_scan_returns_the_duplicate (H := world_of corpus)
                (Some 1%Z) [alice] [carol] bob (8 # 10) (6 # 10) (9 # 10)
                eq_refl eq_refl eq_refl) as [_ HA].
    apply (HA 1%Z 1%Z ∅).
    + apply (bool_decide_unpack _). vm_compute. exact I.
    + reflexivity.
    + reflexivity.
    + reflexivity.
    + intros u [<-|[<-|[]]]; (eexists; split; [vm_compute; reflexivity|]);
        intros s' E; inversion E; reflexivity.
Defined.

(** C6, as stated, fails for the early-exit scan: bob is the one duplicate
    of the query (0.9 against 0.3 for alice and for carol) and the
    threshold 0.05 is below his similarity, yet the scan of
    [simple_face_match] returns alice, who comes first in the database; the
    scan of [advanced_face_match] returns bob. *)
Lemma early_exit_returns_an_earlier_user :
  users_find (World := world_of crowded) = Ok [alice; bob; carol] /\
  Simple.scan_user (W := world_of crowded) 1%Z alice = Ok (Some (3 # 10)) /\
  Simple.scan_user (W := world_of crowded) 1%Z bob = Ok (Some (9 # 10)) /\
  Simple.scan_user (W := world_of crowded) 1%Z carol = Ok (Some (3 # 10)) /\
  Simple.is_face_duplicate (W := world_of crowded) (Some 1%Z)
  = Ok (true, Simple.user_info alice) /\
  Simple.is_face_duplicate (W := world_of crowded) (Some 1%Z)
  <> Ok (true, Simple.user_info bob) /\
  fst (Advanced.is_face_duplicate (W := world_of crowded) (Some 1%Z) ∅)
  = Ok (true, Some "bob").
Proof.
  repeat (split; [reflexivity|]). split; [discriminate|].
  vm_compute. reflexivity.
Qed.

(** ** Supporting facts *)

(** Sorting keeps every eye: [len(eyes) >= 2] can be read off the sorted list. *)
Lemma sorted_by_x_length (l : list Rect) : length (sorted_by_x l) = length l.
Proof.
  assert (Hins : forall e l', length (insert_by_x e l') = S (length l')).
  { intros e l'. induction l' as [|r l' IH]; [reflexivity|].
    cbn [insert_by_x]. destruct (rx e <=? rx r)%Z; cbn [length]; congruence. }
  induction l as [|e l IH]; [reflexivity|].
  cbn [sorted_by_x fold_right]. fold (sorted_by_x l). rewrite Hins. cbn. congruence.
Qed.

(** Whatever the similarity, a result of [face_match.verify_face] that
    reports a detected face says match = True and a similarity of at least
    0.8. *)
Lemma face_match_verdict_always_matches `{World}
    (image_path stored_image_path user_id : option string) (threshold : Q)
    (image_data : option string) (align_faces enhance_contrast : bool)
    (r : VerifyResult) :
  FaceMatch.verify_face image_path stored_image_path user_id threshold
    image_data align_faces enhance_contrast = Ok r ->
  r_face_detected r = Some true ->
  r_match r = true /\ exists s, r_similarity r = Some s /\ 8 # 10 <= s.
Proof.
  unfold FaceMatch.verify_face.
  break_all; intros E; inversion E; subst; cbn; intros D; try discriminate D;
    (split; [reflexivity|]); eexists; (split; [reflexivity|]);
    apply pymax_ge_l.
Qed.

(** ** Concrete runs *)

Example largest_keeps_first_of_equal_area :
  largest (mkRect 0 0 10 10) [mkRect 5 5 20 20; mkRect 9 9 20 20; mkRect 1 1 4 4]
  = mkRect 5 5 20 20.
Proof. reflexivity. Qed.

Example sorted_by_x_is_stable :
  sorted_by_x [mkRect 75 50 30 20; mkRect 20 40 30 20; mkRect 20 45 1 1]
  = [mkRect 20 40 30 20; mkRect 20 45 1 1; mkRect 75 50 30 20].
Proof. reflexivity. Qed.

Example user_id_of_stored_path :
  before_dot (basename "static/faces/64b2.jpg") = "64b2".
Proof. reflexivity. Qed.

Example pyint_truncates : pyint (799 # 10) = 79%Z /\ pyint (-(5 # 2)) = (-2)%Z.
Proof. split; reflexivity. Qed.

Example best_entry_keeps_first_of_equal_score :
  best_entry ("template", 1 # 2) [("ssim", 9 # 10); ("histogram", 9 # 10)]
  = ("ssim", 9 # 10).
Proof. reflexivity. Qed.

(** The early-exit scan stops at the first user above the threshold, who
    need not be the best one: at 0.05 it returns alice (0.3) although bob
    scores 0.9. *)
Example early_exit_returns_first_clearing_user :
  Simple.is_face_duplicate (W := world_of crowded) (Some 1%Z)
  = Ok (true, Some "alice (alice@example.com)").
Proof. reflexivity. Qed.

(** The dictionary of [advanced_face_match] after a scan of the corpus
    holds one encoding per registered user. *)
Example scan_fills_the_dictionary :
  snd (Advanced.is_face_duplicate (W := world_of corpus) (Some 1%Z) ∅)
  = <["64c3" := 13%Z]> (<["64b2" := 12%Z]> (<["64a1" := 11%Z]> ∅)).
Proof. vm_compute. reflexivity. Qed.

(** The product of width and height wraps around at 32 bits: a rectangle of
    50000 x 50000 loses against one of 10 x 10. *)
Example largest_wraps_at_32_bits :
  area (mkRect 0 0 50000 50000) = (-1794967296)%Z /\
  largest (mkRect 0 0 10 10) [mkRect 0 0 50000 50000] = mkRect 0 0 10 10.
Proof. split; reflexivity. Qed.

(** A username that is absent is replaced by the default; one that is null
    is handed on as [None], or formatted as "None" in front of the e-mail
    address. *)
Example names_of_a_record_without_username :
  Simple.user_info (mkUser "64d4" None Absent None) = Some "Unknown" /\
  Simple.user_info (mkUser "64d4" None Null None) = None /\
  Simple.user_info nameless_bob = Some "None (bob@example.com)" /\
  Advanced.username_or_default (mkUser "64d4" None Absent None)
  = Some "Unknown User" /\
  Advanced.username_or_default nameless_bob = None.
Proof. repeat split. Qed.

(** The best user of the scan has a null username: a duplicate is reported
    and no name comes with it. *)
Example duplicate_without_a_name :
  fst (Advanced.is_face_duplicate (W := world_of nameless) (Some 1%Z) ∅)
  = Ok (true, None) /\
  Simple.is_face_duplicate (W := world_of nameless) (Some 1%Z)
  = Ok (true, Some "None (bob@example.com)").
Proof. split; [vm_compute; reflexivity | reflexivity]. Qed.

(** * Further properties of the three modules *)

(** ** The largest rectangle *)

(** Below 2^31 the computed area is the product of width and height. *)
Lemma area_in_range (r : Rect) :
  (0 <= rw r * rh r < 2 ^ 31)%Z -> area r = (rw r * rh r)%Z.
Proof.
  intros Hr. unfold area, int32.
  rewrite Z.mod_small by lia. lia.
Qed.

Lemma largest_fold_spec (rest : list Rect) (first : Rect) :
  In (largest first rest) (first :: rest) /\
  (forall r, In r (first :: rest) -> (area r <= area (largest first rest))%Z).
Proof.
  unfold largest. revert first.
  induction rest as [|x rest IH]; intros first; cbn [fold_left].
  - split; [now left|]. intros r [<-|[]]. lia.
  - destruct (area first <? area x)%Z eqn:E.
    + apply Z.ltb_lt in E. destruct (IH x) as [Hin Hmax]. split.
      * right. exact Hin.
      * intros r [<-|Hr]; [|now apply Hmax].
        specialize (Hmax x (or_introl eq_refl)). lia.
    + apply Z.ltb_ge in E. destruct (IH first) as [Hin Hmax]. split.
      * destruct Hin as [Hin|Hin]; [now left | right; now right].
      * intros r [<-|[<-|Hr]].
        -- apply Hmax. now left.
        -- specialize (Hmax first (or_introl eq_refl)). lia.
        -- apply Hmax. now right.
Qed.

Lemma largest_keeps (post : list Rect) (r : Rect) :
  (forall q, In q post -> (area q <= area r)%Z) -> largest r post = r.
Proof.
  unfold largest. induction post as [|q post IH]; intros Hpost; [reflexivity|].
  cbn [fold_left].
  assert (Hq : (area q <= area r)%Z) by (apply Hpost; now left).
  apply Z.ltb_ge in Hq. rewrite Hq. apply IH.
  intros q' Hq'. apply Hpost. now right.
Qed.

Lemma largest_reaches (post : list Rect) (r : Rect) (pre : list Rect) (best : Rect) :
  (area best < area r)%Z ->
  (forall q, In q pre -> (area q < area r)%Z) ->
  (forall q, In q post -> (area q <= area r)%Z) ->
  largest best (pre ++ r :: post)%list = r.
Proof.
  intros Hb Hpre Hpost. revert best Hb.
  induction pre as [|a pre IH]; intros best Hb; unfold largest; cbn [app fold_left].
  - apply Z.ltb_lt in Hb. rewrite Hb. now apply largest_keeps.
  - destruct (area best <? area a)%Z.
    + apply IH; [intros; apply Hpre; now right | apply Hpre; now left].
    + apply IH; [intros; apply Hpre; now right | exact Hb].
Qed.

(** A rectangle that beats everything before it and is not beaten by
    anything after it is the one [largest] picks. *)
Lemma largest_first_maximal (pre post : list Rect) (r first : Rect) (rest : list Rect) :
  (first :: rest = pre ++ r :: post)%list ->
  (forall q, In q pre -> (area q < area r)%Z) ->
  (forall q, In q post -> (area q <= area r)%Z) ->
  largest first rest = r.
Proof.
  intros E Hpre Hpost. destruct pre as [|p pre]; cbn [app] in E;
    inversion E; subst; clear E.
  - now apply largest_keeps.
  - apply largest_reaches; [apply Hpre; now left | | exact Hpost].
    intros q Hq. apply Hpre. now right.
Qed.

(** X1. [extract_face] of [simple_face_match] works on the detected
    rectangle whose area is greatest, the first one among rectangles of
    equal area; the area is the product of width and height as numpy
    computes it on [int32] values, so it wraps around from 2^31 on. When
    the cascade returns [pre ++ r :: post] with every area in [pre] smaller
    than that of [r] and no area in [post] larger, the result is the
    200x200 resize of the crop at [r] ([None] when the resize raises). *)
Theorem simple_extract_face_takes_first_largest `{World}
    (img gray : Image) (pre post : list Rect) (r : Rect)
    (align_faces enhance_contrast normalize_lighting : bool) :
  Simple.preprocess_image (Some img) normalize_lighting enhance_contrast
    = Ok (Some gray) ->
  face_detect gray (11 # 10) 5 = Ok (pre ++ r :: post)%list ->
  (forall q, In q pre -> (area q < area r)%Z) ->
  (forall q, In q post -> (area q <= area r)%Z) ->
  Simple.extract_face (Some img) align_faces enhance_contrast normalize_lighting
  = match resize (crop gray r) (200, 200)%Z with
    | Ok face_roi => Ok (Some face_roi)
    | Raise _ => Ok None
    end.
Proof.
  intros Hp Hd Hpre Hpost. unfold Simple.extract_face.
  rewrite Hp. exc_simpl. rewrite Hd.
  destruct (pre ++ r :: post)%list as [|f fs] eqn:E.
  { now destruct pre. }
  rewrite (largest_first_maximal pre post r f fs (eq_sym E) Hpre Hpost).
  now destruct (resize (crop gray r) (200, 200)%Z).
Qed.

Lemma simple_extract_face_takes_first_largest_witness :
  Simple.extract_face (W := cropping_world group_photo) (Some 1%Z) false true true
  = Ok (Some 1040%Z).
Proof.
  apply (simple_extract_face_takes_first_largest (H := cropping_world group_photo)
           1%Z 1%Z [mkRect 5 5 10 10] [mkRect 300 30 120 120] (mkRect 40 30 120 120)
           false true true eq_refl eq_refl).
  - intros q [<-|[]]. reflexivity.
  - intros q [<-|[]]. discriminate.
Defined.

(** ** The detection retry of face_match.extract_face *)

(** X2. The retry over the scale factors stops at the first one for which
    the cascade finds something, and the faces it returns are those of that
    one scale factor: either every scale factor found nothing and the
    result is empty, or the result is exactly what the cascade returned at
    the first scale factor that found anything. *)
Theorem detect_faces_first_hit `{World} (gray : Image) (scale_factors : list Q)
    (l : list Rect) :
  FaceMatch.detect_faces gray scale_factors [] = Ok l ->
  (l = [] /\ forall sf, In sf scale_factors -> face_detect gray sf 5 = Ok []) \/
  (l <> [] /\
   exists pre sf post,
     scale_factors = (pre ++ sf :: post)%list /\
     face_detect gray sf 5 = Ok l /\
     forall sf', In sf' pre -> face_detect gray sf' 5 = Ok []).
Proof.
  revert l. induction scale_factors as [|sf rest IH]; intros l;
    cbn [FaceMatch.detect_faces]; exc_simpl.
  - intros E. inversion E; subst. left. split; [reflexivity|]. intros sf [].
  - destruct (face_detect gray sf 5) as [d|] eqn:Ed; [|discriminate].
    cbn [app]. destruct d as [|f fs].
    + intros E. destruct (IH l E) as [[-> Hall]|[Hne (pre & sf' & post & -> & Ehit & Hpre)]].
      * left. split; [reflexivity|]. intros sf' [<-|Hin]; auto.
      * right. split; [exact Hne|]. exists (sf :: pre), sf', post.
        repeat split; [exact Ehit|]. intros sf'' [<-|Hin]; auto.
    + intros E. inversion E; subst. right. split; [discriminate|].
      exists [], sf, rest. repeat split; [exact Ed|]. intros sf' [].
Qed.

Lemma detect_faces_first_hit_witness :
  exists pre sf post,
    [11 # 10; 12 # 10; 13 # 10] = (pre ++ sf :: post)%list /\
    face_detect (World := faint_world) 1%Z sf 5 = Ok one_face /\
    forall sf', In sf' pre -> face_detect (World := faint_world) 1%Z sf' 5 = Ok [].
Proof.
  destruct (detect_faces_first_hit (H := faint_world) 1%Z
              [11 # 10; 12 # 10; 13 # 10] one_face eq_refl)
    as [[E _]|[_ Hhit]]; [discriminate E | exact Hhit].
Defined.

(** ** Alignment *)

Lemma insert_by_x_In (x e : Rect) (l : list Rect) :
  In e (insert_by_x x l) <-> e = x \/ In e l.
Proof.
  induction l as [|r l IH]; cbn [insert_by_x].
  - cbn. intuition.
  - destruct (rx x <=? rx r)%Z; cbn [In]; [intuition|].
    rewrite IH. intuition.
Qed.

Lemma sorted_by_x_In (e : Rect) (l : list Rect) :
  In e (sorted_by_x l) <-> In e l.
Proof.
  induction l as [|x l IH]; [reflexivity|].
  cbn [sorted_by_x fold_right]. fold (sorted_by_x l).
  rewrite insert_by_x_In, IH. cbn. intuition.
Qed.

Lemma insert_by_x_sorted (x : Rect) (l : list Rect) :
  StronglySorted (fun a b => (rx a <= rx b)%Z) l ->
  StronglySorted (fun a b => (rx a <= rx b)%Z) (insert_by_x x l).
Proof.
  induction l as [|r l IH]; intros Hs; cbn [insert_by_x].
  - repeat constructor.
  - inversion Hs as [|? ? Hs' Hall]; subst.
    destruct (rx x <=? rx r)%Z eqn:E.
    + apply Z.leb_le in E. constructor; [exact Hs|].
      constructor; [exact E|].
      rewrite Forall_forall in *. intros y Hy. specialize (Hall y Hy). lia.
    + apply Z.leb_gt in E. constructor; [now apply IH|].
      rewrite Forall_forall in *. intros y Hy.
      apply list_elem_of_In, insert_by_x_In in Hy. destruct Hy as [->|Hy]; [lia|].
      apply Hall. now apply list_elem_of_In.
Qed.

Lemma sorted_by_x_sorted (l : list Rect) :
  StronglySorted (fun a b => (rx a <= rx b)%Z) (sorted_by_x l).
Proof.
  induction l as [|x l IH]; [constructor|].
  cbn [sorted_by_x fold_right]. fold (sorted_by_x l).
  now apply insert_by_x_sorted.
Qed.

(** The first eye of the sorted list is a leftmost one. *)
Lemma sorted_by_x_head (l : list Rect) (e1 : Rect) (tl : list Rect) :
  sorted_by_x l = e1 :: tl ->
  In e1 l /\ forall e, In e l -> (rx e1 <= rx e)%Z.
Proof.
  intros E. pose proof (sorted_by_x_sorted l) as Hs. rewrite E in Hs.
  inversion Hs as [|? ? _ Hall]; subst. split.
  - apply sorted_by_x_In. rewrite E. now left.
  - intros e He. apply sorted_by_x_In in He. rewrite E in He.
    destruct He as [<-|He]; [lia|].
    rewrite Forall_forall in Hall. apply Hall. now apply list_elem_of_In.
Qed.

(** X3. [align_face], given an image and a face rectangle, never raises
    and never hands back [None]. It hands back a new image exactly when the
    eye cascade finds at least two eyes in the face region and the rotation
    succeeds: the image is then rotated about the midpoint of the centres
    of the first two eyes in left-to-right order, by the angle of the line
    through these centres, and the first of them is a leftmost eye of all
    those detected. In every other case (fewer than two eyes, a library
    call raising) the very image that was passed comes back. *)
Theorem align_face_rotates_about_the_eyes `{World} (image : Image) (face_rect : Rect) :
  exists a,
    FaceMatch.align_face (Some image) (Some face_rect) = Ok a /\
    a <> ReturnedNone /\
    forall aligned_image,
      a = NewImage aligned_image <->
      exists eyes left_eye right_eye rest,
        eye_detect (crop image face_rect) = Ok eyes /\
        sorted_by_x eyes = left_eye :: right_eye :: rest /\
        (forall e, In e eyes -> (rx left_eye <= rx e)%Z) /\
        let lc := FaceMatch.eye_center (rx face_rect) (ry face_rect) left_eye in
        let rc := FaceMatch.eye_center (rx face_rect) (ry face_rect) right_eye in
        warp_rotate image
          ((fst lc + fst rc) / 2, (snd lc + snd rc) / 2)%Z
          (snd rc - snd lc)%Z (fst rc - fst lc)%Z = Ok aligned_image.
Proof.
  unfold FaceMatch.align_face. exc_simpl.
  destruct (eye_detect (crop image face_rect)) as [eyes|] eqn:Ee.
  2: { eexists. split; [reflexivity|]. split; [discriminate|].
       intros al. split; [discriminate|]. intros (? & ? & ? & ? & E & _).
       discriminate E. }
  destruct (sorted_by_x eyes) as [|e1 [|e2 rest]] eqn:Es.
  1, 2: eexists; (split; [reflexivity|]); (split; [discriminate|]);
        intros al; (split; [discriminate|]);
        intros (? & ? & ? & ? & E & Es' & _);
        injection E as <-; rewrite Es in Es'; discriminate Es'.
  match goal with
  | |- context [warp_rotate ?i ?c ?dy ?dx] =>
      destruct (warp_rotate i c dy dx) as [aligned|] eqn:Ew
  end.
  - eexists. split; [reflexivity|]. split; [discriminate|].
    intros al. split.
    + intros E. injection E as <-.
      destruct (sorted_by_x_head eyes e1 (e2 :: rest) Es) as [_ Hmin].
      exists eyes, e1, e2, rest. repeat split; auto.
    + intros (eyes' & l & r & rest' & E & Es' & _ & Ew').
      injection E as <-. rewrite Es in Es'. injection Es' as <- <- <-.
      cbn zeta in Ew'. rewrite Ew in Ew'. now injection Ew' as <-.
  - eexists. split; [reflexivity|]. split; [discriminate|].
    intros al. split; [discriminate|].
    intros (eyes' & l & r & rest' & E & Es' & _ & Ew').
    injection E as <-. rewrite Es in Es'. injection Es' as <- <- <-.
    cbn zeta in Ew'. rewrite Ew in Ew'. discriminate Ew'.
Qed.

Lemma align_face_few_eyes `{World} (image : Image) (face_rect : Rect) :
  few_eyes (eye_detect (crop image face_rect)) = true ->
  FaceMatch.align_face (Some image) (Some face_rect) = Ok SameObject.
Proof.
  unfold FaceMatch.align_face, few_eyes. exc_simpl.
  destruct (eye_detect (crop image face_rect)) as [eyes|]; [|reflexivity].
  pose proof (sorted_by_x_length eyes) as Hl.
  destruct eyes as [|a [|b eyes]]; try discriminate; intros _.
  - reflexivity.
  - reflexivity.
Qed.

(** X4. Asking for alignment changes nothing when the eye cascade finds
    fewer than two eyes in the largest face (or raises): [extract_face] of
    [face_match] with [align_faces=True] then returns what it returns with
    [align_faces=False]. *)
Theorem alignment_without_eyes_is_a_no_op `{World} (img gray : Image)
    (f : Rect) (fs : list Rect) (enhance_contrast normalize_lighting : bool) :
  FaceMatch.preprocess_image (Some img) normalize_lighting enhance_contrast
    = Ok (Some gray) ->
  FaceMatch.detect_faces gray [11 # 10; 12 # 10; 13 # 10] [] = Ok (f :: fs) ->
  few_eyes (eye_detect (crop gray (largest f fs))) = true ->
  FaceMatch.extract_face (Some img) true enhance_contrast normalize_lighting
  = FaceMatch.extract_face (Some img) false enhance_contrast normalize_lighting.
Proof.
  intros Hp Hd He.
  rewrite !(extract_face_unfold img gray f fs _ _ _ Hp Hd).
  unfold FaceMatch.face_region.
  now rewrite (align_face_few_eyes gray (largest f fs) He).
Qed.

Lemma alignment_without_eyes_is_a_no_op_witness :
  FaceMatch.extract_face (W := world_of strangers) (Some 1%Z) true true true
  = FaceMatch.extract_face (W := world_of strangers) (Some 1%Z) false true true.
Proof.
  exact (alignment_without_eyes_is_a_no_op (H := world_of strangers) 1%Z 1%Z
           (mkRect 40 30 120 120) [] true true eq_refl eq_refl eq_refl).
Defined.

(** ** The backup metrics of advanced_face_match *)

(** X5. A report of [compute_additional_similarity] is either empty (a
    metric raised inside its [try]) or holds exactly the two entries
    ["ssim"] and ["histogram"]; its best score is the larger of the two and
    [method] names the entry that holds it, ["ssim"] on a tie. *)
Theorem additional_similarity_report `{World} (face1 face2 : option Image)
    (rep : Report) :
  Advanced.compute_additional_similarity face1 face2 = Ok rep ->
  rep = empty_report \/
  exists ssim_score hist_score name,
    scores rep = [("ssim", ssim_score); ("histogram", hist_score)] /\
    ssim_score <= best_score rep /\ hist_score <= best_score rep /\
    method rep = Some name /\
    score_of name (scores rep) = Some (best_score rep) /\
    (name = "ssim" <-> hist_score <= ssim_score).
Proof.
  unfold Advanced.compute_additional_similarity.
  destruct face1 as [f1|], face2 as [f2|];
    try (intros E; inversion E; now left).
  exc_simpl.
  destruct (Advanced.to_gray f1) as [g1|]; [|discriminate].
  destruct (Advanced.to_gray f2) as [g2|]; [|discriminate].
  match goal with
  | |- context [if ?b then Ok g2 else ?c] => destruct (if b then Ok g2 else c) as [g2'|]
  end; [|discriminate].
  break_all; intros E; inversion E; subst; clear E; try (now left).
  all: right; do 3 eexists; cbn [scores best_score method];
    (split; [reflexivity|]); (split; [apply pymax_ge_l|]);
    (split; [apply pymax_ge_r|]); (split; [reflexivity|]).
  all: match goal with
  | G : Qgeb ?s ?h = true |- _ =>
      apply Qgeb_le in G; split;
        [ cbn; destruct (pymax_cases s h) as [[-> _]|[_ ?]]; [reflexivity | lra]
        | split; [intros _; exact G | reflexivity] ]
  | G : Qgeb ?s ?h = false |- _ =>
      apply Qgeb_lt in G; split;
        [ cbn; destruct (pymax_cases s h) as [[_ ?]|[-> _]]; [lra | reflexivity]
        | split; [discriminate | intros; lra] ]
  end.
Qed.

Lemma additional_similarity_report_witness :
  exists ssim_score hist_score name,
    [("ssim", 9 # 10); ("histogram", 1 # 2)]
    = [("ssim", ssim_score); ("histogram", hist_score)] /\
    ssim_score <= 9 # 10 /\ hist_score <= 9 # 10 /\
    Some "ssim" = Some name /\
    score_of name [("ssim", 9 # 10); ("histogram", 1 # 2)] = Some (9 # 10) /\
    (name = "ssim" <-> hist_score <= ssim_score).
Proof.
  destruct (additional_similarity_report (H := world_of lookalike)
              (Some 1%Z) (Some 2%Z)
              (mkReport (9 # 10) (Some "ssim") [("ssim", 9 # 10); ("histogram", 1 # 2)])
              eq_refl) as [E|Hrep]; [discriminate E | exact Hrep].
Defined.

(** ** The displayed percentage *)

Lemma pyint_percentage (q : Q) : 0 <= q -> q <= 100 -> (0 <= pyint q <= 100)%Z.
Proof.
  destruct q as [n d]. unfold Qle, pyint. cbn [Qnum Qden]. intros H0 H1.
  assert (Hn : (0 <= n)%Z) by lia.
  rewrite Z.quot_div_nonneg by lia. split.
  - apply Z.div_pos; lia.
  - apply Z.div_le_upper_bound; lia.
Qed.

(** X6. Whatever the similarity (it may be negative or exceed 1), the
    [display_similarity] of a result of [simple_face_match.verify_face] is
    a whole percentage between 0 and 100. *)
Theorem simple_display_similarity_is_a_percentage `{World}
    (image_path stored_image_path : string) (threshold : Q)
    (align_faces enhance_contrast : bool) (r : VerifyResult) (d : Z) :
  Simple.verify_face image_path stored_image_path threshold
    align_faces enhance_contrast = Ok r ->
  r_display_similarity r = Some d ->
  (0 <= d <= 100)%Z.
Proof.
  unfold Simple.verify_face.
  break_all; intros E; inversion E; subst; clear E; cbn;
    intros Ed; try discriminate Ed.
  injection Ed as <-.
  match goal with
  | |- context [pymin 100 (pymax 0 ?x)] =>
      pose proof (pymin_cases 100 (pymax 0 x)) as Hmin;
      pose proof (pymax_ge_l 0 x) as Hmax
  end.
  apply pyint_percentage; destruct Hmin as [[-> ?]|[-> ?]]; lra.
Qed.

Lemma simple_display_similarity_is_a_percentage_witness :
  exists r,
    Simple.verify_face (W := world_of negative_pair_files)
      "capture.jpg" "static/faces/u1.jpg" (5 # 100) true true = Ok r /\
    r_similarity r = Some (-(1 # 2)) /\
    r_display_similarity r = Some 0%Z /\
    (0 <= 0 <= 100)%Z.
Proof.
  eexists. split; [reflexivity|]. split; [reflexivity|]. split; [reflexivity|].
  exact (simple_display_similarity_is_a_percentage (H := world_of negative_pair_files)
           "capture.jpg" "static/faces/u1.jpg" (5 # 100) true true _ 0%Z
           eq_refl eq_refl).
Defined.

(** ** The threshold of verify_face *)

Ltac st_unfold :=
  unfold mbind, mret, Advanced.St_bind, Advanced.St_ret, Advanced.lift,
    Advanced.lookup_known, Advanced.store_known, Advanced.save_face_encodings
    in *; cbn beta iota in *.

Ltac invert_pairs :=
  repeat match goal with
         | E : (_, _) = (_, _) |- _ => inversion E; subst; clear E
         end.

(** X7. In [simple_face_match.verify_face] the threshold is a lower bound
    on the similarity: the reported similarity does not depend on it, and
    a pair that matches at a threshold matches at every lower one. *)
Theorem simple_threshold_is_a_similarity_floor `{World}
    (image_path stored_image_path : string) (t t' : Q)
    (align_faces enhance_contrast : bool) (r r' : VerifyResult) :
  Simple.verify_face image_path stored_image_path t
    align_faces enhance_contrast = Ok r ->
  Simple.verify_face image_path stored_image_path t'
    align_faces enhance_contrast = Ok r' ->
  t <= t' ->
  r_similarity r = r_similarity r' /\
  (r_match r' = true -> r_match r = true).
Proof.
  unfold Simple.verify_face.
  break_all; intros E E'; inversion E; inversion E'; subst; clear E E';
    intros Ht; cbn; (split; [reflexivity|]); try (intros D; discriminate D).
  rewrite !Qgeb_le. intros. lra.
Qed.

Lemma simple_threshold_is_a_similarity_floor_witness :
  exists r r',
    Simple.verify_face (W := world_of strangers)
      "capture.jpg" "static/faces/u1.jpg" (5 # 100) true true = Ok r /\
    Simple.verify_face (W := world_of strangers)
      "capture.jpg" "static/faces/u1.jpg" (2 # 10) true true = Ok r' /\
    r_similarity r = r_similarity r' /\
    (r_match r' = true -> r_match r = true).
Proof.
  do 2 eexists. split; [reflexivity|]. split; [reflexivity|].
  apply (simple_threshold_is_a_similarity_floor (H := world_of strangers)
           "capture.jpg" "static/faces/u1.jpg" (5 # 100) (2 # 10) true true
           _ _ eq_refl eq_refl).
  apply Qle_bool_imp_le. reflexivity.
Defined.

(** X8. In [advanced_face_match.verify_face] the same parameter is an
    upper bound on the embedding distance: from the same dictionary, the
    reported similarity does not depend on it, and a pair that matches at a
    threshold matches at every higher one. *)
Theorem advanced_threshold_is_a_distance_tolerance `{World}
    (image_path stored_image_path : string) (t t' : Q)
    (align_faces enhance_contrast : bool) (known known1 known2 : gmap string Encoding)
    (r r' : VerifyResult) :
  Advanced.verify_face image_path stored_image_path t
    align_faces enhance_contrast known = (Ok r, known1) ->
  Advanced.verify_face image_path stored_image_path t'
    align_faces enhance_contrast known = (Ok r', known2) ->
  t <= t' ->
  r_similarity r = r_similarity r' /\
  (r_match r = true -> r_match r' = true).
Proof.
  unfold Advanced.verify_face, Advanced.st_try, Advanced.compare_faces.
  st_unfold. exc_simpl.
  repeat (cbn beta iota; break_match); try discriminate; invert_pairs;
    intros E E'; inversion E; inversion E'; subst; clear E E';
    intros Ht; cbn; (split; [reflexivity|]); try (intros D; discriminate D).
  all: repeat match goal with
              | G : Qle_bool _ _ = true |- _ => apply Qle_bool_iff in G
              | G : Qle_bool ?x ?y = false |- _ =>
                  change (Qgeb y x = false) in G; apply Qgeb_lt in G
              end;
       rewrite ?Qle_bool_iff; intros; first [reflexivity | lra].
Qed.

Lemma advanced_threshold_is_a_distance_tolerance_witness :
  exists r r' known1 known2,
    Advanced.verify_face (W := world_of lookalike)
      "capture.jpg" "static/faces/u1.jpg" (1 # 2) true true ∅ = (Ok r, known1) /\
    Advanced.verify_face (W := world_of lookalike)
      "capture.jpg" "static/faces/u1.jpg" (8 # 10) true true ∅ = (Ok r', known2) /\
    r_match r = false /\ r_match r' = true /\
    r_similarity r = r_similarity r' /\
    (r_match r = true -> r_match r' = true).
Proof.
  do 4 eexists. split; [vm_compute; reflexivity|].
  split; [vm_compute; reflexivity|]. split; [reflexivity|]. split; [reflexivity|].
  eapply (advanced_threshold_is_a_distance_tolerance (H := world_of lookalike)
            "capture.jpg" "static/faces/u1.jpg" (1 # 2) (8 # 10) true true ∅).
  - vm_compute. reflexivity.
  - vm_compute. reflexivity.
  - apply Qle_bool_imp_le. reflexivity.
Defined.

(** ** The encoding dictionary in advanced_face_match.verify_face *)

Ltac break_in E :=
  match type of E with
  | context [match ?x with _ => _ end] =>
      lazymatch x with
      | context [match _ with _ => _ end] => fail
      | _ => destruct x eqn:?
      end
  end.

Ltac rewrite_known :=
  repeat (cbn beta iota;
          match goal with
          | G : ?x = _ |- context [match ?x with _ => _ end] => rewrite G
          | |- context [<[?k := ?v]> ?m !! ?k] => rewrite (lookup_insert_eq m k v)
          end).

Lemma verify_face_with_cached `{World}
    (image_path stored_image_path : string) (threshold : Q)
    (align_faces enhance_contrast : bool) (known known' : gmap string Encoding)
    (cached : Encoding) (r : VerifyResult) :
  known !! before_dot (basename stored_image_path) = Some cached ->
  Advanced.verify_face image_path stored_image_path threshold
    align_faces enhance_contrast known = (Ok r, known') ->
  known' = known /\
  (verdict_result r ->
   exists img enc s,
     imread image_path = Ok (Some img) /\
     Advanced.get_face_encoding (Some img) = Ok (Some enc) /\
     Advanced.compare_faces (Some cached) (Some enc) threshold = Ok (r_match r, s) /\
     r_similarity r = Some s).
Proof.
  intros Hc. unfold Advanced.verify_face, Advanced.st_try, verdict_result.
  st_unfold.
  repeat (cbn beta iota; rewrite ?Hc; break_match); try discriminate;
    invert_pairs;
    intros E; inversion E; subst; clear E; (split; [reflexivity|]); cbn;
    intros (Herr & Hdet & Hsim); try discriminate;
    do 3 eexists; repeat split; eauto.
Qed.

(** X9. With an entry for the user in the dictionary, [verify_face] takes
    no encoding from the stored image: it leaves the dictionary as it is,
    and the match flag and the similarity of a verdict are those of
    [compare_faces] on the cached encoding and the encoding of the capture.
    (The stored image is still read, and cropped for the alternative
    methods.) *)
Theorem cached_encoding_decides `{World}
    (image_path stored_image_path : string) (threshold : Q)
    (align_faces enhance_contrast : bool) (known known' : gmap string Encoding)
    (cached : Encoding) (r : VerifyResult) :
  known !! before_dot (basename stored_image_path) = Some cached ->
  Advanced.verify_face image_path stored_image_path threshold
    align_faces enhance_contrast known = (Ok r, known') ->
  known' = known /\
  (verdict_result r ->
   exists img enc s,
     imread image_path = Ok (Some img) /\
     Advanced.get_face_encoding (Some img) = Ok (Some enc) /\
     Advanced.compare_faces (Some cached) (Some enc) threshold = Ok (r_match r, s) /\
     r_similarity r = Some s).
Proof.
  apply verify_face_with_cached.
Qed.

(** X10. Without an entry for the user, a verdict of [verify_face] comes
    with exactly one change of the dictionary: the encoding of the stored
    image is filed under the user id read off the file name. No call of
    [verify_face] changes any other entry. *)
Theorem verify_face_fills_the_dictionary `{World}
    (image_path stored_image_path : string) (threshold : Q)
    (align_faces enhance_contrast : bool) (known known' : gmap string Encoding)
    (r : VerifyResult) :
  Advanced.verify_face image_path stored_image_path threshold
    align_faces enhance_contrast known = (Ok r, known') ->
  (forall k, k <> before_dot (basename stored_image_path) ->
     known' !! k = known !! k) /\
  (known !! before_dot (basename stored_image_path) = None ->
   verdict_result r ->
   exists simg e,
     imread stored_image_path = Ok (Some simg) /\
     Advanced.get_face_encoding (Some simg) = Ok (Some e) /\
     known' = <[before_dot (basename stored_image_path) := e]> known).
Proof.
  unfold Advanced.verify_face, Advanced.st_try, verdict_result.
  st_unfold.
  repeat (cbn beta iota; break_match); try discriminate; invert_pairs;
    intros E; inversion E; subst; clear E;
    (split; [intros k Hk; rewrite ?lookup_insert_ne by congruence; reflexivity|]);
    cbn; intros Hn (Herr & Hdet & Hsim); try discriminate;
    do 2 eexists; repeat split; eauto.
Qed.

(** X11. Verifying again from the dictionary left by a first call gives the
    same result and leaves that dictionary as it is: a warm dictionary
    decides like a cold one as long as the files are unchanged. *)
Theorem verify_face_warm_equals_cold `{World}
    (image_path stored_image_path : string) (threshold : Q)
    (align_faces enhance_contrast : bool) (known known' : gmap string Encoding)
    (r : exc VerifyResult) :
  Advanced.verify_face image_path stored_image_path threshold
    align_faces enhance_contrast known = (r, known') ->
  Advanced.verify_face image_path stored_image_path threshold
    align_faces enhance_contrast known' = (r, known').
Proof.
  unfold Advanced.verify_face, Advanced.st_try.
  st_unfold. unfold try_except. intros E.
  repeat (cbn beta iota in E; break_in E); try discriminate; invert_pairs;
    rewrite_known; reflexivity.
Qed.

(** ** The dictionary and the verdict of advanced_face_match.is_face_duplicate *)

Section AdvancedScanState.
Context `{W : World}.
Variables (encoding : Encoding) (threshold : Q).

Lemma scan_frame (users : list User) :
  forall known best_match best_similarity k,
    ~ In k (map user_oid users) ->
    snd (Advanced.scan threshold encoding users best_match best_similarity known) !! k
    = known !! k.
Proof.
  induction users as [|u users IH]; intros known bm bs k Hk; [reflexivity|].
  assert (Hk1 : k <> user_oid u) by (intros ->; apply Hk; now left).
  assert (Hk2 : ~ In k (map user_oid users)) by (intros Hin; apply Hk; now right).
  rewrite scan_cons.
  pose proof (stored_encoding_of_frame u known k Hk1) as Hf.
  destruct (Advanced.stored_encoding_of u known) as [[[se|]|e] known1];
    cbn [snd] in *.
  - destruct (Advanced.compare_faces (Some se) (Some encoding) threshold)
      as [[m s]|e]; cbn [snd]; [|exact Hf].
    destruct (Qgtb s bs); now rewrite IH.
  - now rewrite IH.
  - exact Hf.
Qed.

(** A user whose entry is what the first pass left decides as in the first
    pass, and changes nothing. *)
Lemma stored_encoding_of_warm (user : User) (known known1 known2 : gmap string Encoding)
    (o : exc (option Encoding)) :
  Advanced.stored_encoding_of user known = (o, known1) ->
  known2 !! user_oid user = known1 !! user_oid user ->
  Advanced.stored_encoding_of user known2 = (o, known2).
Proof.
  rewrite !stored_encoding_of_eq. intros E Hk.
  repeat (cbn beta iota in E; break_in E); invert_pairs;
    rewrite ?lookup_insert_eq in Hk; rewrite ?Hk; rewrite_known; reflexivity.
Qed.

Lemma scan_warm (users : list User) :
  forall known best_match best_similarity r known' known2,
    NoDup (map user_oid users) ->
    Advanced.scan threshold encoding users best_match best_similarity known
    = (r, known') ->
    (forall u, In u users -> known2 !! user_oid u = known' !! user_oid u) ->
    Advanced.scan threshold encoding users best_match best_similarity known2
    = (r, known2).
Proof.
  induction users as [|u users IH]; intros known bm bs r known' known2 Hnd E Hk.
  - cbn in *. now inversion E.
  - cbn [map] in Hnd. apply NoDup_cons in Hnd as [Hnotin Hnd].
    assert (Hfr : forall bm3 bs3 known1,
              snd (Advanced.scan threshold encoding users bm3 bs3 known1)
                !! user_oid u = known1 !! user_oid u).
    { intros. apply scan_frame. intros Hin. apply Hnotin.
      now apply list_elem_of_In. }
    rewrite scan_cons in E. rewrite scan_cons.
    destruct (Advanced.stored_encoding_of u known) as [o known1] eqn:Eo.
    assert (Hk1 : known' !! user_oid u = known1 !! user_oid u).
    { destruct o as [[se|]|e].
      - destruct (Advanced.compare_faces (Some se) (Some encoding) threshold)
          as [[m s]|e].
        + destruct (Qgtb s bs);
            match type of E with
            | Advanced.scan _ _ _ ?bm3 ?bs3 _ = _ =>
                pose proof (Hfr bm3 bs3 known1) as Hx; rewrite E in Hx; exact Hx
            end.
        + now inversion E.
      - pose proof (Hfr bm bs known1) as Hx. rewrite E in Hx. exact Hx.
      - now inversion E. }
    rewrite (stored_encoding_of_warm u known known1 known2 o Eo)
      by (rewrite (Hk u (or_introl eq_refl)); exact Hk1).
    assert (Hk' : forall u0, In u0 users ->
                    known2 !! user_oid u0 = known' !! user_oid u0)
      by (intros; apply Hk; now right).
    destruct o as [[se|]|e].
    + destruct (Advanced.compare_faces (Some se) (Some encoding) threshold)
        as [[m s]|e].
      * destruct (Qgtb s bs); eapply IH; eauto.
      * now inversion E.
    + eapply IH; eauto.
    + now inversion E.
Qed.

End AdvancedScanState.

(** X12. [is_face_duplicate] of [advanced_face_match] never raises, and
    the only entries of the dictionary it can change are those of the
    registered users it scans; in particular it changes nothing when the
    query is dropped before the scan. *)
Theorem is_face_duplicate_touches_registered_users_only `{World}
    (threshold : Q) (image : option Image) (known : gmap string Encoding) :
  exists is_duplicate best_match known',
    Advanced.is_face_duplicate_at threshold image known
    = (Ok (is_duplicate, best_match), known') /\
    forall k,
      (forall users, users_find = Ok users -> ~ In k (map user_oid users)) ->
      known' !! k = known !! k.
Proof.
  unfold Advanced.is_face_duplicate_at, Advanced.st_try.
  st_unfold. unfold try_except.
  destruct (Advanced.preprocess_image image) as [[rgb|]|];
    try (do 3 eexists; split; [reflexivity | reflexivity]).
  destruct (Advanced.get_face_encoding (Some rgb)) as [[enc|]|];
    try (do 3 eexists; split; [reflexivity | reflexivity]).
  destruct users_find as [users|];
    try (do 3 eexists; split; [reflexivity | reflexivity]).
  pose proof (scan_frame enc threshold users known None (-1)) as Hf.
  destruct (Advanced.scan threshold enc users None (-1) known)
    as [[[bm bs]|e] known1]; cbn [snd] in Hf.
  - destruct (pickle_dump known1); do 3 eexists; (split; [reflexivity|]);
      intros k Hk; apply Hf; now apply Hk.
  - do 3 eexists. split; [reflexivity|]. intros k Hk. apply Hf. now apply Hk.
Qed.

(** X13. With distinct user identifiers, scanning again from the dictionary
    left by a first scan gives the same answer and leaves that dictionary
    as it is: the encodings cached by the first scan are the ones the
    second scan would compute. *)
Theorem duplicate_scan_warm_equals_cold `{World}
    (threshold : Q) (image : option Image) (known known' : gmap string Encoding)
    (r : exc (bool * option string)) :
  (forall users, users_find = Ok users -> NoDup (map user_oid users)) ->
  Advanced.is_face_duplicate_at threshold image known = (r, known') ->
  Advanced.is_face_duplicate_at threshold image known' = (r, known').
Proof.
  intros Hnd. unfold Advanced.is_face_duplicate_at, Advanced.st_try.
  st_unfold. unfold try_except.
  destruct (Advanced.preprocess_image image) as [[rgb|]|];
    try (intros E; inversion E; subst; reflexivity).
  destruct (Advanced.get_face_encoding (Some rgb)) as [[enc|]|];
    try (intros E; inversion E; subst; reflexivity).
  destruct users_find as [users|] eqn:Eu;
    try (intros E; inversion E; subst; reflexivity).
  destruct (Advanced.scan threshold enc users None (-1) known)
    as [sr known1] eqn:Es.
  intros E.
  assert (known1 = known') as ->.
  { destruct sr as [[bm bs]|e]; [destruct (pickle_dump known1)|];
      now inversion E. }
  rewrite (scan_warm enc threshold users known None (-1) sr known' known'
             (Hnd users eq_refl) Es (fun _ _ => eq_refl)).
  destruct sr as [[bm bs]|e]; [|exact E].
  destruct (pickle_dump known'); exact E.
Qed.

Section AdvancedBest.
Context `{W : World}.
Variables (encoding : Encoding) (known0 : gmap string Encoding) (threshold : Q).

Lemma similarity_of_nonneg (user : User) (s : Q) :
  similarity_of encoding user known0 = Ok (Some s) -> 0 <= s.
Proof.
  unfold similarity_of. exc_simpl.
  destruct (fst (Advanced.stored_encoding_of user known0)) as [[st|]|];
    try discriminate.
  destruct (compare_faces_returns (Some st) (Some encoding) 0)
    as (m & s1 & E1 & Hge & _).
  rewrite E1. intros E. now inversion E; subst.
Qed.

(** One iteration, whoever the user is. *)
Lemma scan_step_any (user : User) (rest : list User)
    (best_match : option string) (best_similarity : Q)
    (known : gmap string Encoding) (o : option Q) :
  known !! user_oid user = known0 !! user_oid user ->
  similarity_of encoding user known0 = Ok o ->
  Advanced.scan threshold encoding (user :: rest) best_match best_similarity known
  = match o with
    | Some s =>
        if Qgtb s best_similarity
        then Advanced.scan threshold encoding rest
               (Advanced.username_or_default user) s
               (snd (Advanced.stored_encoding_of user known))
        else Advanced.scan threshold encoding rest best_match best_similarity
               (snd (Advanced.stored_encoding_of user known))
    | None =>
        Advanced.scan threshold encoding rest best_match best_similarity
          (snd (Advanced.stored_encoding_of user known))
    end.
Proof.
  intros Hk Ho.
  pose proof (similarity_of_known encoding known0 threshold user known o Hk Ho) as Hs.
  rewrite scan_cons.
  destruct (Advanced.stored_encoding_of user known) as [r known'].
  cbn [fst snd] in *. destruct o as [s|].
  - destruct Hs as (stored & m & -> & ->). reflexivity.
  - rewrite Hs. reflexivity.
Qed.

(** The loop ends on a best similarity that bounds every user's, held by
    the user it names. *)
Lemma scan_best (users : list User) :
  forall known best_match best_similarity,
    NoDup (map user_oid users) -> agrees known0 known users ->
    (forall u, In u users -> exists o, similarity_of encoding u known0 = Ok o) ->
    exists bm bs known',
      Advanced.scan threshold encoding users best_match best_similarity known
      = (Ok (bm, bs), known') /\
      best_similarity <= bs /\
      (forall u s, In u users ->
         similarity_of encoding u known0 = Ok (Some s) -> s <= bs) /\
      ((bm = best_match /\ bs = best_similarity) \/
       exists u, In u users /\
                 similarity_of encoding u known0 = Ok (Some bs) /\
                 bm = Advanced.username_or_default u).
Proof.
  induction users as [|u users IH]; intros known bm bs Hnd Ha Hok.
  - do 3 eexists. split; [reflexivity|]. split; [lra|].
    split; [intros ? ? []|]. now left.
  - destruct (Hok u (or_introl eq_refl)) as [o Ho].
    rewrite (scan_step_any u users bm bs known o (Ha u (or_introl eq_refl)) Ho).
    assert (Hnd' : NoDup (map user_oid users))
      by (cbn [map] in Hnd; now apply NoDup_cons in Hnd as [_ ?]).
    pose proof (agrees_after known0 u users known Hnd Ha) as Ha'.
    assert (Hok' : forall v, In v users ->
                     exists o, similarity_of encoding v known0 = Ok o)
      by (intros; apply Hok; now right).
    destruct o as [s|]; [destruct (Qgtb s bs) eqn:G|].
    + apply Qgtb_lt in G.
      destruct (IH (snd (Advanced.stored_encoding_of u known))
                  (Advanced.username_or_default u) s Hnd' Ha' Hok')
        as (bm' & bs' & known' & -> & Hle & Hall & Hwho).
      do 3 eexists. split; [reflexivity|]. split; [lra|]. split.
      * intros v s' [<-|Hv] Es'; [|eapply Hall; eassumption].
        rewrite Ho in Es'. inversion Es'; subst. exact Hle.
      * right. destruct Hwho as [[-> ->]|(v & Hv & Ev & ->)].
        -- exists u. repeat split; auto. now left.
        -- exists v. repeat split; auto. now right.
    + apply Qgtb_le in G.
      destruct (IH (snd (Advanced.stored_encoding_of u known)) bm bs Hnd' Ha' Hok')
        as (bm' & bs' & known' & -> & Hle & Hall & Hwho).
      do 3 eexists. split; [reflexivity|]. split; [exact Hle|]. split.
      * intros v s' [<-|Hv] Es'; [|eapply Hall; eassumption].
        rewrite Ho in Es'. inversion Es'; subst. lra.
      * destruct Hwho as [[-> ->]|(v & Hv & Ev & ->)]; [now left|].
        right. exists v. repeat split; auto. now right.
    + destruct (IH (snd (Advanced.stored_encoding_of u known)) bm bs Hnd' Ha' Hok')
        as (bm' & bs' & known' & -> & Hle & Hall & Hwho).
      do 3 eexists. split; [reflexivity|]. split; [exact Hle|]. split.
      * intros v s' [<-|Hv] Es'; [|eapply Hall; eassumption].
        rewrite Ho in Es'. discriminate Es'.
      * destruct Hwho as [[-> ->]|(v & Hv & Ev & ->)]; [now left|].
        right. exists v. repeat split; auto. now right.
Qed.

End AdvancedBest.

(** X14. Best of corpus. When the query has an encoding, the user
    identifiers are distinct and no call raises while the registered faces
    are loaded, [is_face_duplicate] of [advanced_face_match] reports a
    duplicate exactly when some registered user scores at least the
    threshold. Either every user was skipped and no name is returned, or
    the name returned is [user.get("username", "Unknown User")] of a user
    whose score no other user exceeds: the name in the record,
    ["Unknown User"] when the record has no name, [None] when it holds
    null. That name is returned whether or not a duplicate is reported. *)
Theorem best_of_corpus `{World}
    (threshold : Q) (image : option Image) (rgb_image : Image)
    (encoding : Encoding) (users : list User) (known : gmap string Encoding) :
  -1 < threshold ->
  Advanced.preprocess_image image = Ok (Some rgb_image) ->
  Advanced.get_face_encoding (Some rgb_image) = Ok (Some encoding) ->
  users_find = Ok users ->
  NoDup (map user_oid users) ->
  (forall u, In u users -> exists o, similarity_of encoding u known = Ok o) ->
  exists is_duplicate best_match known',
    Advanced.is_face_duplicate_at threshold image known
    = (Ok (is_duplicate, best_match), known') /\
    (is_duplicate = true <->
     exists u s, In u users /\
                 similarity_of encoding u known = Ok (Some s) /\ threshold <= s) /\
    (((forall u, In u users -> similarity_of encoding u known = Ok None) /\
      best_match = None) \/
     (exists u s,
        In u users /\
        similarity_of encoding u known = Ok (Some s) /\
        (forall v s', In v users ->
           similarity_of encoding v known = Ok (Some s') -> s' <= s) /\
        best_match = get_or (user_username u) "Unknown User")).
Proof.
  intros Ht Hrgb Henc Hfind Hnd Hok.
  destruct (scan_best encoding known threshold users known None (-1) Hnd
              (fun _ _ => eq_refl) Hok)
    as (bm & bs & known' & Es & Hle & Hall & Hwho).
  unfold Advanced.is_face_duplicate_at, Advanced.st_try.
  st_unfold. unfold try_except. rewrite Hrgb, Henc, Hfind, Es.
  exists (Qgeb bs threshold), bm, known'.
  split; [now destruct (pickle_dump known')|].
  destruct Hwho as [[-> ->]|(u & Hu & Eu & ->)].
  - assert (Hnone : forall v, In v users -> similarity_of encoding v known = Ok None).
    { intros v Hv. destruct (Hok v Hv) as [[s|] Eo]; [|exact Eo].
      pose proof (similarity_of_nonneg encoding known v s Eo).
      specialize (Hall v s Hv Eo). lra. }
    split.
    + split.
      * intros G. apply Qgeb_le in G. lra.
      * intros (v & s & Hv & Ev & _). rewrite (Hnone v Hv) in Ev. discriminate Ev.
    + left. split; [exact Hnone | reflexivity].
  - split.
    + split.
      * intros G. apply Qgeb_le in G. eauto.
      * intros (v & s & Hv & Ev & Hs). apply Qgeb_le.
        specialize (Hall v s Hv Ev). lra.
    + right. exists u, bs. repeat split; auto.
Qed.

(** ** Early exit in simple_face_match and face_match *)

Lemma simple_scan_outcome `{World} (threshold : Q) (input_face : Image)
    (users : list User) :
  forall best_match best_similarity,
    (Simple.scan threshold input_face users best_match best_similarity = Ok None /\
     forall u s, In u users ->
       Simple.scan_user input_face u = Ok (Some s) -> s <= threshold) \/
    (exists pre u post s,
       users = (pre ++ u :: post)%list /\
       Simple.scan_user input_face u = Ok (Some s) /\ threshold < s /\
       (forall v s', In v pre ->
          Simple.scan_user input_face v = Ok (Some s') -> s' <= threshold) /\
       Simple.scan threshold input_face users best_match best_similarity
       = Ok (Some (Simple.user_info u))).
Proof.
  induction users as [|u users IH]; intros bm bs.
  - left. split; [reflexivity|]. intros ? ? [].
  - cbn [Simple.scan]. exc_simpl.
    destruct (simple_scan_user_returns input_face u) as [[s|] E]; rewrite E.
    + destruct (Qgtb s threshold) eqn:G.
      * apply Qgtb_lt in G. right. exists [], u, users, s.
        repeat split; auto. intros ? ? [].
      * apply Qgtb_le in G.
        match goal with
        | |- context [Simple.scan _ _ users ?bm' ?bs'] =>
            destruct (IH bm' bs') as [[-> Hall]|(pre & v & post & s' & -> & Ev & Hs & Hpre & ->)]
        end.
        -- left. split; [reflexivity|]. intros v s' [<-|Hv] Ev; eauto.
           rewrite E in Ev. inversion Ev; subst. exact G.
        -- right. exists (u :: pre), v, post, s'. repeat split; auto.
           intros w sw [<-|Hw] Ew; eauto.
           rewrite E in Ew. inversion Ew; subst. exact G.
    + destruct (IH bm bs) as [[-> Hall]|(pre & v & post & s' & -> & Ev & Hs & Hpre & ->)].
      * left. split; [reflexivity|]. intros v s' [<-|Hv] Ev; eauto.
        rewrite E in Ev. discriminate Ev.
      * right. exists (u :: pre), v, post, s'. repeat split; auto.
        intros w sw [<-|Hw] Ew; eauto.
        rewrite E in Ew. discriminate Ew.
Qed.

(** X15. [is_face_duplicate] of [simple_face_match] never raises and answers
    in one of two ways: [(True, info)], where [info] describes the first
    registered user, in database order, whose similarity to the query
    exceeds the threshold; or [(False, None)], and then the query has no
    detectable face, the user list could not be fetched, or no registered
    user exceeds the threshold. *)
Theorem simple_early_exit `{World} (threshold : Q) (image : option Image) :
  (exists input_face pre u post s,
     Simple.extract_face image false true true = Ok (Some input_face) /\
     users_find = Ok (pre ++ u :: post)%list /\
     Simple.scan_user input_face u = Ok (Some s) /\ threshold < s /\
     (forall v s', In v pre ->
        Simple.scan_user input_face v = Ok (Some s') -> s' <= threshold) /\
     Simple.is_face_duplicate_at threshold image
     = Ok (true, Simple.user_info u)) \/
  (Simple.is_face_duplicate_at threshold image = Ok (false, None) /\
   forall input_face users u s,
     Simple.extract_face image false true true = Ok (Some input_face) ->
     users_find = Ok users -> In u users ->
     Simple.scan_user input_face u = Ok (Some s) -> s <= threshold).
Proof.
  unfold Simple.is_face_duplicate_at. exc_simpl.
  destruct (Simple.extract_face image false true true) as [[face|]|];
    try (right; split; [reflexivity | intros; discriminate]).
  destruct users_find as [users|];
    try (right; split; [reflexivity | intros; discriminate]).
  destruct (simple_scan_outcome threshold face users None 0)
    as [[E Hall]|(pre & u & post & s & -> & Eu & Hs & Hpre & E)]; rewrite E.
  - right. split; [reflexivity|].
    intros face' users' u s Ef Eus. inversion Ef; inversion Eus; subst. eauto.
  - left. exists face, pre, u, post, s. repeat split; auto.
Qed.

Lemma face_match_scan_user_returns `{World} (input_face : Image) (user : User) :
  exists o, FaceMatch.scan_user input_face user = Ok o.
Proof.
  unfold FaceMatch.scan_user.
  destruct (truthy (user_image_path user) && _); [|eauto].
  unfold try_except.
  match goal with
  | |- exists o, match ?body with _ => _ end = _ => destruct body; eauto
  end.
Qed.

Lemma face_match_scan_outcome `{World} (threshold feature_threshold : Q)
    (input_face : Image) (users : list User) :
  threshold <= feature_threshold ->
  forall best_user best_similarity best_method,
    (FaceMatch.scan threshold feature_threshold input_face users
       best_user best_similarity best_method = Ok None /\
     forall u rep, In u users ->
       FaceMatch.scan_user input_face u = Ok (Some rep) ->
       best_score rep <= threshold) \/
    (exists pre u post rep,
       users = (pre ++ u :: post)%list /\
       FaceMatch.scan_user input_face u = Ok (Some rep) /\
       threshold < best_score rep /\
       (forall v rep', In v pre ->
          FaceMatch.scan_user input_face v = Ok (Some rep') ->
          best_score rep' <= threshold) /\
       FaceMatch.scan threshold feature_threshold input_face users
         best_user best_similarity best_method
       = Ok (Some (FaceMatch.user_info u))).
Proof.
  intros Hft.
  induction users as [|u users IH]; intros bu bs bm.
  - left. split; [reflexivity|]. intros ? ? [].
  - cbn [FaceMatch.scan]. exc_simpl.
    destruct (face_match_scan_user_returns input_face u) as [[rep|] E]; rewrite E.
    + destruct (Qgtb (best_score rep) threshold) eqn:G.
      * apply Qgtb_lt in G. right. exists [], u, users, rep.
        repeat split; auto; [intros ? ? []|].
        now destruct (FaceMatch.is_facial_features (method rep)
                      && Qgtb (best_score rep) feature_threshold).
      * assert (G' : Qgtb (best_score rep) feature_threshold = false)
          by (apply Qgtb_le; apply Qgtb_le in G; lra).
        rewrite G', andb_false_r. apply Qgtb_le in G.
        match goal with
        | |- context [FaceMatch.scan _ _ _ users ?bu' ?bs' ?bm'] =>
            destruct (IH bu' bs' bm')
              as [[-> Hall]|(pre & v & post & rep' & -> & Ev & Hs & Hpre & ->)]
        end.
        -- left. split; [reflexivity|]. intros v rep' [<-|Hv] Ev; eauto.
           rewrite E in Ev. inversion Ev; subst. exact G.
        -- right. exists (u :: pre), v, post, rep'. repeat split; auto.
           intros w rw [<-|Hw] Ew; eauto.
           rewrite E in Ew. inversion Ew; subst. exact G.
    + destruct (IH bu bs bm)
        as [[-> Hall]|(pre & v & post & rep' & -> & Ev & Hs & Hpre & ->)].
      * left. split; [reflexivity|]. intros v rep' [<-|Hv] Ev; eauto.
        rewrite E in Ev. discriminate Ev.
      * right. exists (u :: pre), v, post, rep'. repeat split; auto.
        intros w rw [<-|Hw] Ew; eauto.
        rewrite E in Ew. discriminate Ew.
Qed.

Lemma first_split_unique {A : Type} (P : A -> Prop)
    (pre : list A) (u : A) (post pre' : list A) (u' : A) (post' : list A) :
  (pre ++ u :: post = pre' ++ u' :: post')%list ->
  (forall v, In v pre -> ~ P v) -> P u ->
  (forall v, In v pre' -> ~ P v) -> P u' ->
  u = u'.
Proof.
  revert pre'. induction pre as [|p pre IH]; intros [|p' pre'] Eq Hpre Hu Hpre' Hu';
    cbn [app] in Eq; inversion Eq; subst.
  - reflexivity.
  - exfalso. apply (Hpre' p'); [now left | exact Hu].
  - exfalso. apply (Hpre u'); [now left | exact Hu'].
  - apply (IH pre'); auto.
    + intros v Hv. apply Hpre. now right.
    + intros v Hv. apply Hpre'. now right.
Qed.

(** X16. [is_face_duplicate] of [face_match] is the same early exit on the
    fused score: as long as [feature_threshold] is not below [threshold]
    (they are 0.3 and 0.05), the answer is [(True, info)] for the first
    registered user whose fused score exceeds [threshold], and
    [(False, None)] otherwise. The separate test on the facial-features
    method therefore never changes the answer: replacing
    [feature_threshold] by any other value not below [threshold] gives the
    same result. *)
Theorem face_match_early_exit `{World} (threshold feature_threshold : Q)
    (image : option Image) :
  threshold <= feature_threshold ->
  ((exists input_face pre u post rep,
      FaceMatch.extract_face image true true true = Ok (Some input_face) /\
      users_find = Ok (pre ++ u :: post)%list /\
      FaceMatch.scan_user input_face u = Ok (Some rep) /\
      threshold < best_score rep /\
      (forall v rep', In v pre ->
         FaceMatch.scan_user input_face v = Ok (Some rep') ->
         best_score rep' <= threshold) /\
      FaceMatch.is_face_duplicate_at threshold feature_threshold image
      = Ok (true, FaceMatch.user_info u)) \/
   (FaceMatch.is_face_duplicate_at threshold feature_threshold image
    = Ok (false, None) /\
    forall input_face users u rep,
      FaceMatch.extract_face image true true true = Ok (Some input_face) ->
      users_find = Ok users -> In u users ->
      FaceMatch.scan_user input_face u = Ok (Some rep) ->
      best_score rep <= threshold)) /\
  forall feature_threshold',
    threshold <= feature_threshold' ->
    FaceMatch.is_face_duplicate_at threshold feature_threshold' image
    = FaceMatch.is_face_duplicate_at threshold feature_threshold image.
Proof.
  intros Hft. split.
  - unfold FaceMatch.is_face_duplicate_at. exc_simpl.
    destruct (FaceMatch.extract_face image true true true) as [[face|]|];
      try (right; split; [reflexivity | intros; discriminate]).
    destruct users_find as [users|];
      try (right; split; [reflexivity | intros; discriminate]).
    destruct (face_match_scan_outcome threshold feature_threshold face users Hft
                None 0 None)
      as [[E Hall]|(pre & u & post & rep & -> & Eu & Hs & Hpre & E)]; rewrite E.
    + right. split; [reflexivity|].
      intros face' users' u rep Ef Eus. inversion Ef; inversion Eus; subst. eauto.
    + left. exists face, pre, u, post, rep. repeat split; auto.
  - intros ft' Hft'. unfold FaceMatch.is_face_duplicate_at. exc_simpl.
    destruct (FaceMatch.extract_face image true true true) as [[face|]|];
      try reflexivity.
    destruct users_find as [users|]; try reflexivity.
    destruct (face_match_scan_outcome threshold feature_threshold face users Hft
                None 0 None)
      as [[E Hall]|(pre & u & post & rep & -> & Eu & Hs & Hpre & E)]; rewrite E.
    + destruct (face_match_scan_outcome threshold ft' face users Hft' None 0 None)
        as [[E' _]|(pre & u & post & rep & -> & Eu & Hs & Hpre & E')];
        rewrite E'; [reflexivity|].
      exfalso. specialize (Hall u rep (in_elt u pre post) Eu). lra.
    + destruct (face_match_scan_outcome threshold ft' face (pre ++ u :: post)%list
                  Hft' None 0 None)
        as [[E' Hall]|(pre' & u' & post' & rep' & Eq & Eu' & Hs' & Hpre' & E')];
        rewrite E'.
      * exfalso. specialize (Hall u rep (in_elt u pre post) Eu). lra.
      * (* both decompositions single out the first user above the threshold *)
        rewrite (first_split_unique
                   (fun v => exists r, FaceMatch.scan_user face v = Ok (Some r) /\
                                       threshold < best_score r)
                   pre u post pre' u' post' Eq); eauto.
        -- intros v Hv (r & Er & Hr). specialize (Hpre v r Hv Er). lra.
        -- intros v Hv (r & Er & Hr). specialize (Hpre' v r Hv Er). lra.
Qed.

(** ** The three pairwise scorers on the same pair *)

Lemma all_scores_metrics `{World} (face1 face2 : Image) (l : list (string * Q)) :
  FaceMatch.all_scores face1 face2 = Ok l ->
  exists r1 r2 t s h rest,
    resize face1 (200, 200)%Z = Ok r1 /\
    resize face2 (200, 200)%Z = Ok r2 /\
    matchTemplate r1 r2 = Ok t /\
    Simple.similarity_metrics face1 face2 = Ok (t, s, h) /\
    l = (("template", t) :: ("ssim", s) :: ("histogram", h) :: rest)%list.
Proof.
  unfold FaceMatch.all_scores, Simple.similarity_metrics. intros E.
  repeat (exc_simpl; break_in E; try discriminate E).
  inversion E; subst; clear E.
  do 6 eexists. repeat split; eassumption.
Qed.

(** X17. On a pair for which [compute_similarity_multiple] returns a
    non-empty report, the legacy [compute_similarity] of [face_match]
    returns the report's ["template"] entry, [simple_face_match]'s
    [compute_similarity] returns the maximum of the ["template"], ["ssim"]
    and ["histogram"] entries, and the three scores are ordered:
    legacy <= simple <= fused. *)
Theorem scorers_are_ordered `{World} (face1 face2 : Image) (rep : Report) :
  FaceMatch.compute_similarity_multiple (Some face1) (Some face2) = Ok rep ->
  scores rep <> [] ->
  exists template_score ssim_score hist_score,
    score_of "template" (scores rep) = Some template_score /\
    score_of "ssim" (scores rep) = Some ssim_score /\
    score_of "histogram" (scores rep) = Some hist_score /\
    FaceMatch.compute_similarity (Some face1) (Some face2) = Ok template_score /\
    Simple.compute_similarity (Some face1) (Some face2)
    = Ok (pymax (pymax template_score ssim_score) hist_score) /\
    template_score <= pymax (pymax template_score ssim_score) hist_score /\
    pymax (pymax template_score ssim_score) hist_score <= best_score rep.
Proof.
  intros E Hne.
  destruct (multiple_takes_the_maximum face1 face2)
    as (rep' & E' & [[_ ->]|(Ea & _ & Hmax & _)]); rewrite E in E';
    inversion E'; subst; [now destruct Hne|].
  destruct (all_scores_metrics _ _ _ Ea)
    as (r1 & r2 & t & s & h & rest & E1 & E2 & Et & Em & El).
  exists t, s, h.
  split; [rewrite El; reflexivity|].
  split; [rewrite El; reflexivity|].
  split; [rewrite El; reflexivity|].
  split; [|split; [|split]].
  - unfold FaceMatch.compute_similarity. exc_simpl. now rewrite E1, E2, Et.
  - unfold Simple.compute_similarity. exc_simpl. now rewrite Em.
  - pose proof (pymax_ge_l t s). pose proof (pymax_ge_l (pymax t s) h). lra.
  - apply pymax_lub; [apply pymax_lub|].
    + apply (Hmax "template"). rewrite El. now left.
    + apply (Hmax "ssim"). rewrite El. right. now left.
    + apply (Hmax "histogram"). rewrite El. right. right. now left.
Qed.

Lemma scorers_are_ordered_witness :
  exists template_score ssim_score hist_score,
    score_of "template"
      [("template", 12 # 100); ("ssim", 2 # 10); ("histogram", 3 # 10);
       ("mse", 2500 # 10000)] = Some template_score /\
    score_of "ssim"
      [("template", 12 # 100); ("ssim", 2 # 10); ("histogram", 3 # 10);
       ("mse", 2500 # 10000)] = Some ssim_score /\
    score_of "histogram"
      [("template", 12 # 100); ("ssim", 2 # 10); ("histogram", 3 # 10);
       ("mse", 2500 # 10000)] = Some hist_score /\
    FaceMatch.compute_similarity (W := world_of strangers) (Some 1%Z) (Some 2%Z)
      = Ok template_score /\
    Simple.compute_similarity (W := world_of strangers) (Some 1%Z) (Some 2%Z)
      = Ok (pymax (pymax template_score ssim_score) hist_score) /\
    template_score <= pymax (pymax template_score ssim_score) hist_score /\
    pymax (pymax template_score ssim_score) hist_score <= 3 # 10.
Proof.
  apply (scorers_are_ordered (H := world_of strangers) 1%Z 2%Z
           (mkReport (3 # 10) (Some "histogram")
              [("template", 12 # 100); ("ssim", 2 # 10); ("histogram", 3 # 10);
               ("mse", 2500 # 10000)]) eq_refl).
  discriminate.
Defined.

(** ** Registration: paths *)

Lemma basename_from_no_slash (s acc : string) :
  has_char "/" s = false -> basename_from acc s = acc.
Proof.
  revert acc. induction s as [|c s IH]; intros acc Hs; [reflexivity|].
  cbn [has_char] in Hs. apply orb_false_iff in Hs as [Hc Hs].
  cbn [basename_from]. rewrite Hc. now apply IH.
Qed.

Lemma string_app_nil (s : string) : "" ++ s = s.
Proof. reflexivity. Qed.

Lemma string_app_cons (c : ascii) (a b : string) :
  String c a ++ b = String c (a ++ b).
Proof. reflexivity. Qed.

Lemma basename_from_after_slash (pre s acc : string) :
  has_char "/" s = false ->
  basename_from acc (pre ++ String "/" s) = s.
Proof.
  intros Hs. revert acc. induction pre as [|c pre IH]; intros acc.
  - rewrite string_app_nil. cbn [basename_from]. rewrite Ascii.eqb_refl.
    now apply basename_from_no_slash.
  - rewrite string_app_cons. cbn [basename_from].
    destruct (Ascii.eqb c "/"); apply IH.
Qed.

Lemma has_char_app (c : ascii) (a b : string) :
  has_char c (a ++ b) = has_char c a || has_char c b.
Proof.
  induction a as [|x a IH]; [reflexivity|].
  rewrite string_app_cons. cbn [has_char]. now rewrite IH, orb_assoc.
Qed.

Lemma before_dot_app (s rest : string) :
  has_char "." s = false -> before_dot (s ++ String "." rest) = s.
Proof.
  induction s as [|c s IH]; intros Hs; [reflexivity|].
  cbn [has_char] in Hs. apply orb_false_iff in Hs as [Hc Hs].
  rewrite string_app_cons. cbn [before_dot]. rewrite Hc. now rewrite IH.
Qed.

Lemma face_file_no_slash (user_id : string) :
  has_char "/" user_id = false ->
  face_file user_id = "static/faces/" ++ user_id ++ ".jpg" /\
  os_path_join "static/faces" (user_id ++ ".jpg") = face_file user_id.
Proof.
  intros Hs. unfold face_file.
  change (os_path_join "static" "faces") with "static/faces".
  split; [|reflexivity].
  destruct user_id as [|c u]; [reflexivity|].
  cbn [has_char] in Hs. apply orb_false_iff in Hs as [Hc _].
  unfold os_path_join. rewrite string_app_cons, Hc. reflexivity.
Qed.

(** X18. The file name written at registration and the dictionary key
    read back at verification agree: for a user id without ['/'] and
    without ['.'], the path [static/faces/<user_id>.jpg] built by
    [save_user_face] yields [user_id] again through
    [os.path.basename(path).split('.')[0]] in [verify_face]. *)
Theorem user_id_survives_the_file_name (user_id : string) :
  has_char "/" user_id = false ->
  has_char "." user_id = false ->
  face_file user_id = "static/faces/" ++ user_id ++ ".jpg" /\
  before_dot (basename (face_file user_id)) = user_id.
Proof.
  intros Hs Hd. destruct (face_file_no_slash user_id Hs) as [E _].
  split; [exact E|]. rewrite E. unfold basename.
  change ("static/faces/" ++ user_id ++ ".jpg")
    with ("static/faces" ++ String "/" (user_id ++ ".jpg")).
  rewrite basename_from_after_slash.
  - now apply before_dot_app.
  - rewrite has_char_app, Hs. reflexivity.
Qed.

Lemma user_id_survives_the_file_name_witness :
  face_file "64b2" = "static/faces/64b2.jpg" /\
  before_dot (basename (face_file "64b2")) = "64b2".
Proof.
  exact (user_id_survives_the_file_name "64b2" eq_refl eq_refl).
Defined.

(** ** Registration: what save_user_face does to the disk and the database *)

Ltac run_unfold :=
  unfold mbind, mret, Run_bind, Run_ret, run_lift, run_try, logged,
    Advanced.on_known, Advanced.on_disk, Advanced.store_known,
    Advanced.save_face_encodings, try_except in *;
  cbn beta iota in *.

Section Registration.
Context `{W : World} {D : Store}.

(** X19. [save_user_face] of [simple_face_match] never raises. It returns
    True only after these three calls, in this order and all successful:
    the directory is created, the extracted 200x200 face (not the uploaded
    image) is written to [static/faces/<user_id>.jpg], and the user record
    is pointed to that file. When the upload cannot be read or shows no
    face, it returns False and has touched neither the disk nor the
    database. *)
Theorem simple_save_user_face_effects (image_path user_id : string)
    (log : list Effect) :
  exists b log',
    Simple.save_user_face image_path user_id log = (Ok b, log') /\
    (b = true ->
     exists img face,
       imread image_path = Ok (Some img) /\
       Simple.extract_face (Some img) false true true = Ok (Some face) /\
       imwrite (os_path_join "static/faces" (user_id ++ ".jpg")) face = Ok true /\
       update_image_path user_id (os_path_join "static/faces" (user_id ++ ".jpg"))
         = Ok tt /\
       log' = (log ++ [Makedirs "static/faces";
                       Imwrite (os_path_join "static/faces" (user_id ++ ".jpg")) face;
                       UpdateImagePath user_id
                         (os_path_join "static/faces" (user_id ++ ".jpg"))])%list) /\
    ((forall img, imread image_path = Ok (Some img) ->
        Simple.extract_face (Some img) false true true = Ok None) ->
     b = false /\ log' = log).
Proof.
  unfold Simple.save_user_face. run_unfold.
  destruct (imread image_path) as [[img|]|] eqn:Ei;
    try (do 2 eexists; split; [reflexivity|]; split;
         [discriminate | intros; split; reflexivity]).
  destruct (Simple.extract_face (Some img) false true true) as [[face|]|] eqn:Ef;
    try (do 2 eexists; split; [reflexivity|]; split;
         [discriminate | intros; split; reflexivity]).
  assert (Hface : forall P : Prop,
            (forall img0, Ok (Some img) = Ok (Some img0) ->
               Simple.extract_face (Some img0) false true true = Ok None) -> P).
  { intros P Hno. specialize (Hno img eq_refl). rewrite Ef in Hno.
    discriminate Hno. }
  repeat (cbn beta iota; break_match); invert_pairs; try discriminate;
    do 2 eexists; (split; [reflexivity|]);
    (split; [try discriminate | intros Hno; exact (Hface _ Hno)]).
  intros _.
  repeat match goal with
         | u : unit |- _ => destruct u
         | b : bool |- _ => destruct b; try discriminate
         end.
  exists img, face. rewrite <- !app_assoc. cbn [app]. repeat split; assumption.
Qed.

(** X20. Roll-back in [simple_face_match.save_user_face]: when the face was
    written but the database update raises, the file just written is
    removed (if it is there) as the last action, and the answer is False,
    whether or not the removal itself raises. *)
Theorem simple_save_user_face_rolls_back (image_path user_id : string)
    (log : list Effect) (img face : Image) (e : string) :
  imread image_path = Ok (Some img) ->
  Simple.extract_face (Some img) false true true = Ok (Some face) ->
  makedirs "static/faces" = Ok tt ->
  imwrite (os_path_join "static/faces" (user_id ++ ".jpg")) face = Ok true ->
  update_image_path user_id (os_path_join "static/faces" (user_id ++ ".jpg"))
    = Raise e ->
  output_exists (os_path_join "static/faces" (user_id ++ ".jpg")) = true ->
  Simple.save_user_face image_path user_id log
  = (Ok false,
     (log ++ [Makedirs "static/faces";
              Imwrite (os_path_join "static/faces" (user_id ++ ".jpg")) face;
              UpdateImagePath user_id (os_path_join "static/faces" (user_id ++ ".jpg"));
              Remove (os_path_join "static/faces" (user_id ++ ".jpg"))])%list).
Proof.
  intros Ei Ef Em Ew Eu Ex. unfold Simple.save_user_face. run_unfold.
  rewrite Ei, Ef, Em, Ew. cbn. rewrite Eu, Ex.
  rewrite <- !app_assoc. cbn [app].
  now destruct (os_remove (os_path_join "static/faces" (user_id ++ ".jpg"))).
Qed.

(** X21. [save_user_face] of [advanced_face_match] never raises and never
    removes a file. When it returns True, the uploaded image itself was
    handed to [cv2.imwrite] for [static/faces/<user_id>.jpg], the user
    record was updated, and the dictionary holds the encoding of the upload
    under [user_id]; the answer of [cv2.imwrite] is not looked at. When it
    returns False, the dictionary is unchanged. *)
Theorem advanced_save_user_face_effects (image_path user_id : string)
    (known : gmap string Encoding) (log : list Effect) :
  exists b known' added,
    Advanced.save_user_face image_path user_id (known, log)
    = (Ok b, (known', (log ++ added)%list)) /\
    (forall p, ~ In (Remove p) added) /\
    (b = false -> known' = known) /\
    (b = true ->
     exists img encoding,
       imread image_path = Ok (Some img) /\
       Advanced.get_face_encoding (Some img) = Ok (Some encoding) /\
       update_image_path user_id (face_file user_id) = Ok tt /\
       known' = <[user_id := encoding]> known /\
       added = [Makedirs "static/faces"; Imwrite (face_file user_id) img;
                UpdateImagePath user_id (face_file user_id)]).
Proof.
  unfold Advanced.save_user_face, face_file.
  change (os_path_join "static" "faces") with "static/faces".
  run_unfold. cbn [fst snd].
  destruct (imread image_path) as [[img|]|] eqn:Ei;
    try (exists false, known, []; rewrite app_nil_r;
         split; [reflexivity|]; split; [intros p []|];
         split; [reflexivity | discriminate]).
  destruct (Advanced.get_face_encoding (Some img)) as [[enc|]|] eqn:Ee;
    try (exists false, known, []; rewrite app_nil_r;
         split; [reflexivity|]; split; [intros p []|];
         split; [reflexivity | discriminate]).
  cbn [fst snd].
  destruct (makedirs "static/faces") as [[]|] eqn:Em; cbn [fst snd].
  2: { exists false, known, [Makedirs "static/faces"].
       split; [reflexivity|]. split; [intros p [E|[]]; discriminate E|].
       split; [reflexivity | discriminate]. }
  destruct (imwrite (os_path_join "static/faces" (user_id ++ ".jpg")) img)
    as [w|] eqn:Ew; cbn [fst snd].
  2: { eexists false, known, [_; _]. rewrite <- !app_assoc.
       split; [reflexivity|].
       split; [intros p [E|[E|[]]]; discriminate E|].
       split; [reflexivity | discriminate]. }
  destruct (update_image_path user_id
              (os_path_join "static/faces" (user_id ++ ".jpg")))
    as [[]|] eqn:Eu; cbn [fst snd].
  2: { eexists false, known, [_; _; _]. rewrite <- !app_assoc.
       split; [reflexivity|].
       split; [intros p [E|[E|[E|[]]]]; discriminate E|].
       split; [reflexivity | discriminate]. }
  destruct (pickle_dump (<[user_id := enc]> known));
    (eexists true, _, [_; _; _]; rewrite <- !app_assoc;
     split; [reflexivity|];
     split; [intros p [E|[E|[E|[]]]]; discriminate E|];
     split; [discriminate|]; intros _; exists img, enc; repeat split; auto).
Qed.

End Registration.

Section RegistrationThenVerification.
Context `{W : World} {D : Store}.

(** X22. Roll-back in [face_match.save_user_face], which writes the aligned
    face: when the database update raises after the write, the file is
    removed as the last action and the answer is False. *)
Theorem face_match_save_user_face_rolls_back (image_path user_id : string)
    (log : list Effect) (img face : Image) (e : string) :
  imread image_path = Ok (Some img) ->
  FaceMatch.extract_face (Some img) true true true = Ok (Some face) ->
  makedirs "static/faces" = Ok tt ->
  imwrite (os_path_join "static/faces" (user_id ++ ".jpg")) face = Ok true ->
  update_image_path user_id (os_path_join "static/faces" (user_id ++ ".jpg"))
    = Raise e ->
  output_exists (os_path_join "static/faces" (user_id ++ ".jpg")) = true ->
  FaceMatch.save_user_face image_path user_id log
  = (Ok false,
     (log ++ [Makedirs "static/faces";
              Imwrite (os_path_join "static/faces" (user_id ++ ".jpg")) face;
              UpdateImagePath user_id (os_path_join "static/faces" (user_id ++ ".jpg"));
              Remove (os_path_join "static/faces" (user_id ++ ".jpg"))])%list).
Proof.
  intros Ei Ef Em Ew Eu Ex. unfold FaceMatch.save_user_face. run_unfold.
  rewrite Ei, Ef, Em, Ew. cbn. rewrite Eu, Ex.
  rewrite <- !app_assoc. cbn [app].
  now destruct (os_remove (os_path_join "static/faces" (user_id ++ ".jpg"))).
Qed.

Lemma advanced_save_true (image_path user_id : string)
    (known known' : gmap string Encoding) (log log' : list Effect) :
  Advanced.save_user_face image_path user_id (known, log)
  = (Ok true, (known', log')) ->
  exists img encoding,
    imread image_path = Ok (Some img) /\
    Advanced.get_face_encoding (Some img) = Ok (Some encoding) /\
    known' = <[user_id := encoding]> known.
Proof.
  unfold Advanced.save_user_face. run_unfold. cbn [fst snd]. intros E.
  repeat (cbn beta iota in E; cbn [fst snd] in E; break_in E);
    try discriminate; invert_pairs; eauto.
Qed.

(** X23. Registration then verification in [advanced_face_match]: after
    [save_user_face] returned True for a user id without ['/'] and ['.'],
    [verify_face] against [static/faces/<user_id>.jpg] takes no encoding
    from that file; the match flag and the similarity of its verdict come
    from [compare_faces] on the encoding of the upload, as computed at
    registration, and the encoding of the capture. The dictionary stays as
    registration left it. *)
Theorem verification_uses_the_registered_encoding
    (upload capture user_id : string) (threshold : Q)
    (align_faces enhance_contrast : bool)
    (known known1 known2 : gmap string Encoding) (log log1 : list Effect)
    (r : VerifyResult) :
  has_char "/" user_id = false ->
  has_char "." user_id = false ->
  Advanced.save_user_face upload user_id (known, log) = (Ok true, (known1, log1)) ->
  Advanced.verify_face capture (face_file user_id) threshold
    align_faces enhance_contrast known1 = (Ok r, known2) ->
  known2 = known1 /\
  (verdict_result r ->
   exists img registered cimg captured s,
     imread upload = Ok (Some img) /\
     Advanced.get_face_encoding (Some img) = Ok (Some registered) /\
     imread capture = Ok (Some cimg) /\
     Advanced.get_face_encoding (Some cimg) = Ok (Some captured) /\
     Advanced.compare_faces (Some registered) (Some captured) threshold
       = Ok (r_match r, s) /\
     r_similarity r = Some s).
Proof.
  intros Hs Hd Esave Ever.
  destruct (advanced_save_true _ _ _ _ _ _ Esave) as (img & reg & Ei & Ee & ->).
  assert (Hkey : <[user_id := reg]> known
                   !! before_dot (basename (face_file user_id)) = Some reg).
  { destruct (face_file_no_slash user_id Hs) as [E _]. rewrite E. unfold basename.
    change ("static/faces/" ++ user_id ++ ".jpg")
      with ("static/faces" ++ String "/" (user_id ++ ".jpg")).
    rewrite basename_from_after_slash
      by (rewrite has_char_app, Hs; reflexivity).
    rewrite before_dot_app by exact Hd. apply lookup_insert_eq. }
  destruct (verify_face_with_cached _ _ _ _ _ _ _ _ _ Hkey Ever) as [-> Hv].
  split; [reflexivity|]. intros Hr.
  destruct (Hv Hr) as (cimg & cap & s & Ec & Ecap & Ecmp & Esim).
  exists img, reg, cimg, cap, s. repeat split; assumption.
Qed.

End RegistrationThenVerification.

(** ** Concrete runs of the further properties *)

(** A stale entry: the dictionary holds bob's encoding under alice's id, and
    alice's file is verified as a match. *)
Lemma cached_encoding_decides_witness :
  exists r,
    Advanced.verify_face (W := world_of corpus)
      "capture.jpg" "static/faces/64a1.jpg" (6 # 10) true true
      (<["64a1" := 12%Z]> ∅ : gmap string Z)
    = (Ok r, (<["64a1" := 12%Z]> ∅ : gmap string Z)) /\
    r_match r = true /\
    Advanced.compare_faces (W := world_of corpus) (Some 11%Z) (Some 1%Z) (6 # 10)
      = Ok (false, 0) /\
    (verdict_result r ->
     exists img enc s,
       imread (World := world_of corpus) "capture.jpg" = Ok (Some img) /\
       Advanced.get_face_encoding (W := world_of corpus) (Some img) = Ok (Some enc) /\
       Advanced.compare_faces (W := world_of corpus) (Some 12%Z) (Some enc) (6 # 10)
         = Ok (r_match r, s) /\
       r_similarity r = Some s).
Proof.
  eexists. split; [vm_compute; reflexivity|].
  split; [reflexivity|]. split; [reflexivity|].
  refine (proj2 (cached_encoding_decides (H := world_of corpus)
                  "capture.jpg" "static/faces/64a1.jpg" (6 # 10) true true
                  (<["64a1" := 12%Z]> ∅ : gmap string Z) (<["64a1" := 12%Z]> ∅ : gmap string Z) 12%Z _
                  eq_refl _)); vm_compute; reflexivity.
Defined.

Lemma verify_face_fills_the_dictionary_witness :
  exists r,
    Advanced.verify_face (W := world_of lookalike)
      "capture.jpg" "static/faces/u1.jpg" (1 # 2) true true ∅
    = (Ok r, (<["u1" := 2%Z]> ∅ : gmap string Z)) /\
    forall k, k <> "u1" ->
      (<["u1" := 2%Z]> ∅ : gmap string Z) !! k = (∅ : gmap string Z) !! k.
Proof.
  eexists. split; [vm_compute; reflexivity|].
  refine (proj1 (verify_face_fills_the_dictionary (H := world_of lookalike)
                  "capture.jpg" "static/faces/u1.jpg" (1 # 2) true true
                  (∅ : gmap string Z) (<["u1" := 2%Z]> ∅ : gmap string Z) _ _)); vm_compute; reflexivity.
Defined.

Lemma verify_face_warm_equals_cold_witness :
  exists r,
    Advanced.verify_face (W := world_of lookalike)
      "capture.jpg" "static/faces/u1.jpg" (1 # 2) true true ∅
    = (r, (<["u1" := 2%Z]> ∅ : gmap string Z)) /\
    Advanced.verify_face (W := world_of lookalike)
      "capture.jpg" "static/faces/u1.jpg" (1 # 2) true true (<["u1" := 2%Z]> ∅ : gmap string Z)
    = (r, (<["u1" := 2%Z]> ∅ : gmap string Z)).
Proof.
  eexists. split; [vm_compute; reflexivity|].
  refine (verify_face_warm_equals_cold (H := world_of lookalike)
           "capture.jpg" "static/faces/u1.jpg" (1 # 2) true true
           (∅ : gmap string Z) (<["u1" := 2%Z]> ∅ : gmap string Z) _ _); vm_compute; reflexivity.
Defined.

Lemma corpus_ids_distinct :
  forall users, users_find (World := world_of corpus) = Ok users ->
    NoDup (map user_oid users).
Proof.
  intros users E. injection E as <-.
  apply (bool_decide_unpack _). vm_compute. exact I.
Defined.

Lemma duplicate_scan_warm_equals_cold_witness :
  exists known',
    Advanced.is_face_duplicate (W := world_of corpus) (Some 1%Z) ∅
    = (Ok (true, Some "bob"), known') /\
    Advanced.is_face_duplicate (W := world_of corpus) (Some 1%Z) known'
    = (Ok (true, Some "bob"), known').
Proof.
  eexists. split; [vm_compute; reflexivity|].
  refine (duplicate_scan_warm_equals_cold (H := world_of corpus)
           (6 # 10) (Some 1%Z) (∅ : gmap string Z) _ _ corpus_ids_distinct
           _); vm_compute; reflexivity.
Defined.

Lemma best_of_corpus_witness :
  exists is_duplicate best_match known',
    Advanced.is_face_duplicate_at (W := world_of corpus) (9 # 10) (Some 1%Z) ∅
    = (Ok (is_duplicate, best_match), known') /\
    (is_duplicate = true <->
     exists u s, In u [alice; bob; carol] /\
                 similarity_of (H := world_of corpus) 1%Z u ∅ = Ok (Some s) /\
                 9 # 10 <= s) /\
    (((forall u, In u [alice; bob; carol] ->
         similarity_of (H := world_of corpus) 1%Z u ∅ = Ok None) /\
      best_match = None) \/
     (exists u s,
        In u [alice; bob; carol] /\
        similarity_of (H := world_of corpus) 1%Z u ∅ = Ok (Some s) /\
        (forall v s', In v [alice; bob; carol] ->
           similarity_of (H := world_of corpus) 1%Z v ∅ = Ok (Some s') -> s' <= s) /\
        best_match = get_or (user_username u) "Unknown User")).
Proof.
  apply (best_of_corpus (H := world_of corpus) (9 # 10) (Some 1%Z) 1%Z 1%Z
           [alice; bob; carol] ∅ eq_refl eq_refl eq_refl eq_refl).
  - apply (bool_decide_unpack _). vm_compute. exact I.
  - intros u [<-|[<-|[<-|[]]]]; eexists; vm_compute; reflexivity.
Defined.

Lemma face_match_early_exit_witness :
  FaceMatch.is_face_duplicate_at (W := world_of corpus) (5 # 100) (1 # 2) (Some 1%Z)
  = FaceMatch.is_face_duplicate (W := world_of corpus) (Some 1%Z).
Proof.
  destruct (face_match_early_exit (H := world_of corpus) (5 # 100) (3 # 10)
              (Some 1%Z) ltac:(apply Qle_bool_imp_le; reflexivity)) as [_ Hany].
  apply Hany. apply Qle_bool_imp_le. reflexivity.
Defined.

Lemma simple_save_user_face_rolls_back_witness :
  Simple.save_user_face (W := world_of registration) (D := store_db_down registration)
    "upload.jpg" "64b2" []
  = (Ok false,
     [Makedirs "static/faces"; Imwrite (H := world_of registration) "static/faces/64b2.jpg" 12%Z;
      UpdateImagePath "64b2" "static/faces/64b2.jpg";
      Remove "static/faces/64b2.jpg"]).
Proof.
  exact (simple_save_user_face_rolls_back
           (W := world_of registration) (D := store_db_down registration)
           "upload.jpg" "64b2" [] 12%Z 12%Z "ServerSelectionTimeoutError"
           eq_refl eq_refl eq_refl eq_refl eq_refl eq_refl).
Defined.

Lemma face_match_save_user_face_rolls_back_witness :
  FaceMatch.save_user_face (W := world_of registration) (D := store_db_down registration)
    "upload.jpg" "64b2" []
  = (Ok false,
     [Makedirs "static/faces"; Imwrite (H := world_of registration) "static/faces/64b2.jpg" 12%Z;
      UpdateImagePath "64b2" "static/faces/64b2.jpg";
      Remove "static/faces/64b2.jpg"]).
Proof.
  exact (face_match_save_user_face_rolls_back
           (W := world_of registration) (D := store_db_down registration)
           "upload.jpg" "64b2" [] 12%Z 12%Z "ServerSelectionTimeoutError"
           eq_refl eq_refl eq_refl eq_refl eq_refl eq_refl).
Defined.

Lemma verification_uses_the_registered_encoding_witness :
  exists r,
    Advanced.save_user_face (W := world_of registration) (D := store_fine registration)
      "upload.jpg" "64b2" (∅, [])
    = (Ok true,
       (<["64b2" := 12%Z]> ∅,
        [Makedirs "static/faces"; Imwrite (H := world_of registration) "static/faces/64b2.jpg" 12%Z;
         UpdateImagePath "64b2" "static/faces/64b2.jpg"])) /\
    Advanced.verify_face (W := world_of registration)
      "capture.jpg" (face_file "64b2") (6 # 10) true true (<["64b2" := 12%Z]> ∅ : gmap string Z)
    = (Ok r, (<["64b2" := 12%Z]> ∅ : gmap string Z)) /\
    r_match r = true /\
    (verdict_result r ->
     exists img registered cimg captured s,
       imread (World := world_of registration) "upload.jpg" = Ok (Some img) /\
       Advanced.get_face_encoding (W := world_of registration) (Some img)
         = Ok (Some registered) /\
       imread (World := world_of registration) "capture.jpg" = Ok (Some cimg) /\
       Advanced.get_face_encoding (W := world_of registration) (Some cimg)
         = Ok (Some captured) /\
       Advanced.compare_faces (W := world_of registration)
         (Some registered) (Some captured) (6 # 10) = Ok (r_match r, s) /\
       r_similarity r = Some s).
Proof.
  eexists. split; [vm_compute; reflexivity|].
  split; [vm_compute; reflexivity|]. split; [reflexivity|].
  refine (proj2 (verification_uses_the_registered_encoding
                  (W := world_of registration) (D := store_fine registration)
                  "upload.jpg" "capture.jpg" "64b2" (6 # 10) true true
                  (∅ : gmap string Z) (<["64b2" := 12%Z]> ∅ : gmap string Z) (<["64b2" := 12%Z]> ∅ : gmap string Z) [] _ _
                  eq_refl eq_refl
                  _ _)); vm_compute; reflexivity.
Defined.

(** A full disk: [advanced_face_match] registers the user all the same,
    [simple_face_match] refuses and leaves the database alone. *)
Example registration_on_a_full_disk :
  fst (Advanced.save_user_face (W := world_of registration)
         (D := store_disk_full registration) "upload.jpg" "64b2" (∅, []))
  = Ok true /\
  Simple.save_user_face (W := world_of registration)
    (D := store_disk_full registration) "upload.jpg" "64b2" []
  = (Ok false, [Makedirs "static/faces"; Imwrite (H := world_of registration) "static/faces/64b2.jpg" 12%Z]).
Proof. split; vm_compute; reflexivity. Qed.

(** ** The outcomes and the arguments of face_match.verify_face *)

(** X24. [verify_face] of [face_match] never raises, and its result is of
    one of three kinds. A failure: success and match are False, no
    similarity is reported and the error is one of six codes, of which only
    ["verification_error"] comes with a message. No face in the capture:
    success is True although match is False, and nothing else is reported.
    A verdict: success and match are True, the threshold is echoed and the
    similarity is at least 0.8. A missing face is thus a successful call
    for the capture and a failed one (["no_stored_face"]) for the stored
    image. *)
Theorem face_match_verify_face_outcomes `{World}
    (image_path stored_image_path user_id : option string) (threshold : Q)
    (image_data : option string) (align_faces enhance_contrast : bool) :
  exists r,
    FaceMatch.verify_face image_path stored_image_path user_id threshold
      image_data align_faces enhance_contrast = Ok r /\
    ((r_success r = Some false /\ r_match r = false /\
      r_face_detected r = None /\ r_similarity r = None /\
      exists code,
        r_error r = Some code /\
        In code ["no_registered_face"; "no_stored_path";
                 "stored_image_load_failed"; "input_image_load_failed";
                 "no_stored_face"; "verification_error"] /\
        (r_message r <> None -> code = "verification_error")) \/
     (r_success r = Some true /\ r_match r = false /\
      r_face_detected r = Some false /\ r_error r = None /\
      r_similarity r = None /\
      exists input_image,
        FaceMatch.extract_face (Some input_image) align_faces enhance_contrast true
        = Ok None) \/
     (r_success r = Some true /\ r_match r = true /\
      r_face_detected r = Some true /\ r_error r = None /\
      r_threshold r = Some threshold /\
      exists s, r_similarity r = Some s /\ 8 # 10 <= s)).
Proof.
  unfold FaceMatch.verify_face.
  break_all; eexists; (split; [reflexivity|]); cbn.
  all: try (right; right; repeat split;
            eexists; (split; [reflexivity | apply pymax_ge_l])).
  all: try (right; left; repeat split; eexists; eassumption).
  all: left; repeat split; eexists; (split; [reflexivity|]);
       (split; [cbn; tauto|]); first [reflexivity | intros D; now destruct D].
Qed.

(** X25. Which argument wins in [face_match.verify_face]. With
    [image_data], the capture is decoded from these bytes and [image_path]
    is ignored. With a non-empty [stored_image_path], [user_id] is ignored.
    Without one, a user whose record holds an [image_path] is verified
    against that path: the call is the call with this path given
    directly. *)
Theorem face_match_argument_precedence `{World}
    (image_path stored_image_path : option string) (threshold : Q)
    (align_faces enhance_contrast : bool) :
  (forall image_path' user_id data,
     FaceMatch.verify_face image_path stored_image_path user_id threshold
       (Some data) align_faces enhance_contrast
     = FaceMatch.verify_face image_path' stored_image_path user_id threshold
         (Some data) align_faces enhance_contrast) /\
  (forall user_id user_id' image_data,
     truthy stored_image_path = true ->
     FaceMatch.verify_face image_path stored_image_path user_id threshold
       image_data align_faces enhance_contrast
     = FaceMatch.verify_face image_path stored_image_path user_id' threshold
         image_data align_faces enhance_contrast) /\
  (forall uid p image_data,
     truthy stored_image_path = false ->
     truthy (Some uid) = true ->
     find_image_path uid = Ok (Some p) ->
     FaceMatch.verify_face image_path stored_image_path (Some uid) threshold
       image_data align_faces enhance_contrast
     = FaceMatch.verify_face image_path (Some p) None threshold
         image_data align_faces enhance_contrast).
Proof.
  split; [|split].
  - intros ip' uid data. unfold FaceMatch.verify_face. reflexivity.
  - intros uid uid' data Hs. unfold FaceMatch.verify_face.
    rewrite Hs, !andb_false_r. reflexivity.
  - intros uid p data Hs Hu Ep. unfold FaceMatch.verify_face.
    rewrite Hs, Hu. cbn [andb negb truthy]. exc_simpl. rewrite Ep.
    destruct stored_image_path as [[|c s]|]; try discriminate Hs; reflexivity.
Qed.

Lemma face_match_argument_precedence_witness :
  FaceMatch.verify_face
    (W := registered_world strangers "64b2" "static/faces/u1.jpg" "JFIF" 1)
    (Some "ignored.jpg") None (Some "64b2") (5 # 100) (Some "JFIF") true true
  = FaceMatch.verify_face
      (W := registered_world strangers "64b2" "static/faces/u1.jpg" "JFIF" 1)
      (Some "ignored.jpg") (Some "static/faces/u1.jpg") None (5 # 100)
      (Some "JFIF") true true /\
  exists r,
    FaceMatch.verify_face
      (W := registered_world strangers "64b2" "static/faces/u1.jpg" "JFIF" 1)
      (Some "ignored.jpg") None (Some "64b2") (5 # 100) (Some "JFIF") true true
    = Ok r /\ r_face_detected r = Some true.
Proof.
  split.
  - apply (proj2 (proj2 (face_match_argument_precedence
                           (H := registered_world strangers "64b2"
                                   "static/faces/u1.jpg" "JFIF" 1)
                           (Some "ignored.jpg") None (5 # 100) true true)));
      reflexivity.
  - eexists. split; vm_compute; reflexivity.
Defined.

(** ** The similarity and the displayed percentage of advanced_face_match *)

Lemma compare_faces_range `{World} (a b : option Encoding) (t : Q) (m : bool) (s : Q) :
  (forall x y d, face_distance x y = Ok d -> 0 <= d) ->
  Advanced.compare_faces a b t = Ok (m, s) -> 0 <= s <= 1.
Proof.
  intros Hd. unfold Advanced.compare_faces. exc_simpl.
  destruct a as [a|], b as [b|]; try (intros E; inversion E; lra).
  destruct (face_distance a b) as [d|e] eqn:Ed; intros E; inversion E; [|lra].
  specialize (Hd a b d Ed).
  pose proof (pymin_le_r d 1). pose proof (pymin_glb d 1 0 Hd). lra.
Qed.

(** X26. With embedding distances that are not negative, every result of
    [advanced_face_match.verify_face] reports a similarity between 0 and 1
    (0 on a failure). A verdict displays a whole percentage between 0 and
    100: the truncated similarity when the faces do not match, and at least
    80 when they do, however low the similarity is. *)
Theorem advanced_display_similarity `{World}
    (image_path stored_image_path : string) (threshold : Q)
    (align_faces enhance_contrast : bool) (known known' : gmap string Encoding)
    (r : VerifyResult) :
  (forall x y d, face_distance x y = Ok d -> 0 <= d) ->
  Advanced.verify_face image_path stored_image_path threshold
    align_faces enhance_contrast known = (Ok r, known') ->
  exists s,
    r_similarity r = Some s /\ 0 <= s <= 1 /\
    forall d, r_display_similarity r = Some d ->
      (0 <= d <= 100)%Z /\
      (r_match r = true -> (80 <= d)%Z) /\
      (r_match r = false -> d = pyint (s * 100)).
Proof.
  intros Hd. unfold Advanced.verify_face, Advanced.st_try.
  st_unfold. unfold try_except. intros E.
  repeat (cbn beta iota in E; break_in E); try discriminate; invert_pairs;
    cbn; eexists; (split; [reflexivity|]);
    try (split; [lra | intros d D; discriminate D]).
  all: match goal with
       | G : Advanced.compare_faces _ _ _ = Ok (_, ?s) |- _ =>
           pose proof (compare_faces_range _ _ _ _ _ Hd G) as Hs;
           assert (Hp : (0 <= pyint (s * 100) <= 100)%Z)
             by (apply pyint_percentage; lra)
       end.
  all: split; [exact Hs|]; intros d D; injection D as <-;
       repeat split; intros; try discriminate; lia.
Qed.

Lemma advanced_display_similarity_witness :
  exists r known',
    Advanced.verify_face (W := world_of lookalike)
      "capture.jpg" "static/faces/u1.jpg" (8 # 10) true true ∅ = (Ok r, known') /\
    r_match r = true /\
    r_display_similarity r = Some 80%Z /\
    exists s,
      r_similarity r = Some s /\ 0 <= s <= 1 /\
      forall d, r_display_similarity r = Some d ->
        (0 <= d <= 100)%Z /\
        (r_match r = true -> (80 <= d)%Z) /\
        (r_match r = false -> d = pyint (s * 100)).
Proof.
  do 2 eexists. split; [vm_compute; reflexivity|].
  split; [reflexivity|]. split; [reflexivity|].
  refine (advanced_display_similarity (H := world_of lookalike)
            "capture.jpg" "static/faces/u1.jpg" (8 # 10) true true
            (∅ : gmap string Z) _ _ _ _).
  - intros x y d E. injection E as <-. apply Qle_bool_imp_le. reflexivity.
  - vm_compute. reflexivity.
Defined.
